(** * A shallow embedding of the strategy evaluation core of
    crewai-trading-strategy:
    - [Executor]: [SafePythonCodeExecutor] (utils/safe_python_code_executor.py),
      its static screening [check_and_compile] and the namespace handling of
      [execute_compiled];
    - [Backtester]: [HistoricalDailyPricesHelper]
      (utils/historical_daily_prices_helper.py) and [StrategyBacktester]
      (utils/strategy_backtester.py): order validation, the ledger, the
      stop-loss / take-profit enforcement and the day loop of
      [test_strategy];
    - [CodeUtils]: [strip_llm_formatting] (utils/code_utils.py), which
      cleans the generated code before it is screened. *)

From Stdlib Require Import ZArith QArith Floats Bool Ascii String Lqa.
From stdpp Require Import base strings list gmap pretty sorting.

Set Warnings "-register-all,-inexact-float".

(* ================================================================== *)
(** * The sandbox executor *)
(* ================================================================== *)

Module Executor.

Open Scope string_scope.

(** [alias.name.split(".", 1)[0]]: the part before the first dot. *)
Fixpoint split_top (s : string) : string :=
  match s with
  | EmptyString => EmptyString
  | String c r => if Ascii.eqb c "."%char then EmptyString else String c (split_top r)
  end.

Definition mem (x : string) (xs : list string) : bool :=
  existsb (String.eqb x) xs.

(** The fields of [SafePythonCodeExecutor] that the screening and the
    execution read. Sets are lists; membership is [mem]. *)
Record executor := {
  allowed_modules : list string;
  banned_names : list string;
  banned_attributes : list string;
}.

(** [SafePythonCodeExecutor()] with every argument defaulted. *)
Definition default_executor : executor := {|
  allowed_modules := ["math"; "statistics"; "datetime"; "re"; "numpy"; "pandas"];
  banned_names := ["__import__"; "open"; "exec"; "eval"; "compile"; "input";
                   "globals"; "locals"; "vars"; "dir"; "help";
                   "getattr"; "setattr"; "delattr"; "__builtins__"];
  banned_attributes := ["__class__"; "__subclasses__"; "__bases__"; "__mro__";
                        "__getattribute__"; "__getattr__"; "__setattr__";
                        "__delattr__"; "__dict__"; "__globals__"; "__code__";
                        "__closure__"; "f_globals"; "f_locals"; "gi_frame";
                        "cr_frame"];
|}.

(** The syntax-tree nodes that [ast.walk] yields, as far as the screening
    distinguishes them. [NImportFrom module level] is [ast.ImportFrom]:
    [module] is [None] for [from . import x], and [level] counts the
    leading dots. Every other node kind is [NOther]. *)
Inductive node :=
  | NImport (names : list string)
  | NImportFrom (module : option string) (level : nat)
  | NName (id : string)
  | NAttribute (attr : string)
  | NOther.

(** [Rejected] is the [ValueError] of the screening; [CompileError] is the
    [SyntaxError] that the final [compile(tree, ...)] raises on a tree
    that parses but does not compile (e.g. [return] outside a function). *)
Inductive check_result :=
  | Compiled (walk : list node)
  | Rejected (msg : string)
  | CompileError (msg : string).

(** The characters for which [str.isspace] holds, as the byte sequences
    of their UTF-8 encodings: [\t \n \v \f \r], the separators
    [\x1c]..[\x1f], the space, U+0085, U+00A0, U+1680, U+2000..U+200A,
    U+2028, U+2029, U+202F, U+205F and U+3000. A [string] here is the
    UTF-8 encoding of the Python [str]. *)
Definition py_space_seqs : list (list Ascii.ascii) :=
  map (map Ascii.ascii_of_nat)
    (app [[9]; [10]; [11]; [12]; [13]; [28]; [29]; [30]; [31]; [32];
          [194; 133]; [194; 160]; [225; 154; 128]]
      (app (map (fun k => [226; 128; k]) (seq 128 11))
        [[226; 128; 168]; [226; 128; 169]; [226; 128; 175]; [226; 129; 159]; [227; 128; 128]]))%nat.

Fixpoint starts_with (w s : list Ascii.ascii) : bool :=
  match w, s with
  | [], _ => true
  | c :: w', d :: s' => Ascii.eqb c d && starts_with w' s'
  | _ :: _, [] => false
  end.

(** Whether [s] is a run of the sequences [py_space_seqs]; [fuel] bounds
    the number of sequences, each at least one byte long. *)
Fixpoint all_space (fuel : nat) (s : list Ascii.ascii) : bool :=
  match s with
  | [] => true
  | _ :: _ =>
      match fuel with
      | O => false
      | S f =>
          match List.find (fun w => starts_with w s) py_space_seqs with
          | Some w => all_space f (List.skipn (length w) s)
          | None => false
          end
      end
  end.

(** [not code.strip()]: the text is empty or white space only. *)
Definition is_blank (code : string) : bool :=
  let s := list_ascii_of_string code in all_space (length s) s.

(** The [for alias in node.names] loop of an [ast.Import] node. *)
Fixpoint check_import_names (ex : executor) (names : list string) : option string :=
  match names with
  | [] => None
  | n :: rest =>
      if mem (split_top n) (allowed_modules ex) then check_import_names ex rest
      else Some ("Unsafe import not allowed: import " +:+ n)
  end.

(** One iteration of the [for node in ast.walk(tree)] loop: [Some msg] when
    the node raises. *)
Definition check_node (ex : executor) (nd : node) : option string :=
  match nd with
  | NImport names => check_import_names ex names
  | NImportFrom None _ => Some "Unsafe relative import is not allowed."
  | NImportFrom (Some m) _ =>
      if mem (split_top m) (allowed_modules ex) then None
      else Some ("Unsafe import not allowed: from " +:+ m +:+ " import ...")
  | NName id =>
      if mem id (banned_names ex) then Some ("Use of banned name is not allowed: " +:+ id)
      else None
  | NAttribute a =>
      if mem a (banned_attributes ex)
      then Some ("Access to banned attribute is not allowed: ." +:+ a) else None
  | NOther => None
  end.

Fixpoint check_walk (ex : executor) (walk : list node) : option string :=
  match walk with
  | [] => None
  | nd :: rest =>
      match check_node ex nd with
      | Some msg => Some msg
      | None => check_walk ex rest
      end
  end.

(** [check_and_compile code]: [parsed] is the result of
    [ast.parse(code)] ([None] on a syntax error): the nodes in the order of
    [ast.walk], and what [compile(tree, ...)] does with the tree ([None]
    when it compiles, [Some msg] for the [SyntaxError] it raises). *)
Definition check_and_compile (ex : executor) (code : string)
    (parsed : option (list node * option string)) : check_result :=
  if is_blank code then Rejected "code must be a non-empty string."
  else match parsed with
       | None => Rejected "Provided code has a syntax error"
       | Some (walk, compiled) =>
           match check_walk ex walk with
           | Some msg => Rejected msg
           | None =>
               match compiled with
               | None => Compiled walk
               | Some msg => CompileError msg
               end
           end
       end.

(** ** Module-scope execution *)

(** Python objects the sandboxed module can create: a function object
    remembers the dictionary that was the globals of the frame defining it
    (its [__globals__]) by reference, as an address in the [store]. *)
Inductive pyobj :=
  | OInt (z : Z)
  | OStr (s : string)
  | OOpaque (tag : string)
  | OFun (fglobals : nat) (body : pexpr)
with pexpr :=
  | PInt (z : Z)
  | PName (x : string)
  | PAdd (a b : pexpr)
  | PCall (f : pexpr).

(** A module body statement: [def x(): return body] or [x = e]. *)
Inductive stmt :=
  | SDef (x : string) (body : pexpr)
  | SAssign (x : string) (e : pexpr).

Abbreviation dict := (gmap string pyobj).

(** The heap of dictionaries, addressed by number. *)
Abbreviation store := (gmap nat dict).

Definition dict_get (st : store) (r : nat) (x : string) : option pyobj :=
  st !! r ≫= (λ d, d !! x).

(** Name resolution. In a function body ([locs = None]) a free name is
    looked up as [LOAD_GLOBAL] does: the function's globals, then the
    builtins. At module scope ([locs = Some l]) as [LOAD_NAME] does: the
    locals, the globals, then the builtins. *)
Definition load_name (st : store) (builtins : dict) (glob : nat) (locs : option nat)
    (x : string) : string + pyobj :=
  match (match locs with Some l => dict_get st l x | None => None end) with
  | Some v => inr v
  | None =>
      match dict_get st glob x with
      | Some v => inr v
      | None =>
          match builtins !! x with
          | Some v => inr v
          | None => inl ("NameError: name '" +:+ x +:+ "' is not defined")
          end
      end
  end.

(** Evaluation of an expression with a bound on the call depth. A call runs
    the callee's body with the callee's own globals and no locals. *)
Fixpoint eval (fuel : nat) (st : store) (builtins : dict) (glob : nat)
    (locs : option nat) (e : pexpr) : string + pyobj :=
  match fuel with
  | O => inl "RecursionError"
  | S fuel' =>
      match e with
      | PInt z => inr (OInt z)
      | PName x => load_name st builtins glob locs x
      | PAdd a b =>
          match eval fuel' st builtins glob locs a, eval fuel' st builtins glob locs b with
          | inr (OInt x), inr (OInt y) => inr (OInt (x + y)%Z)
          | inl err, _ => inl err
          | _, inl err => inl err
          | _, _ => inl "TypeError"
          end
      | PCall f =>
          match eval fuel' st builtins glob locs f with
          | inr (OFun g body) => eval fuel' st builtins g None body
          | inr _ => inl "TypeError: object is not callable"
          | inl err => inl err
          end
      end
  end.

Definition dict_set (st : store) (r : nat) (x : string) (v : pyobj) : store :=
  <[r := <[x := v]> (default ∅ (st !! r))]> st.

Definition exec_fuel : nat := 1000.
Arguments exec_fuel : simpl never.

(** [exec(compiled, globals, locals)] over the module body: a [def] binds
    in the locals a function whose [__globals__] is [globals]. *)
Fixpoint exec_module (st : store) (builtins : dict) (glob loc : nat)
    (body : list stmt) : string + store :=
  match body with
  | [] => inr st
  | SDef x fb :: rest =>
      exec_module (dict_set st loc x (OFun glob fb)) builtins glob loc rest
  | SAssign x e :: rest =>
      match eval exec_fuel st builtins glob (Some loc) e with
      | inr v => exec_module (dict_set st loc x v) builtins glob loc rest
      | inl err => inl err
      end
  end.

(** The builtins that a sandboxed module can reach; only their names
    matter here. *)
Definition safe_builtins : dict :=
  list_to_map [("len", OOpaque "len"); ("range", OOpaque "range");
               ("__build_class__", OOpaque "__build_class__");
               ("__import__", OOpaque "_safe_import")].

(** The two dictionaries of [execute_compiled]: [exec_globals] at address
    [0] and the fresh [exec_locals: dict = {}] at address [1]. *)
Definition exec_globals_ref : nat := 0.
Definition exec_locals_ref : nat := 1.

Definition exec_globals_init (injected : option dict) : dict :=
  default ∅ injected ∪
  list_to_map [("__builtins__", OOpaque "safe_builtins");
               ("__name__", OStr "__sandbox__");
               ("pd", OOpaque "pandas"); ("np", OOpaque "numpy")].

(** [execute_compiled(compiled, injected_globals)]: returns the store after
    the [exec] (the function objects point into it) and the namespace
    [{**exec_globals, **exec_locals}]. *)
Definition execute_compiled (body : list stmt) (injected : option dict)
    : string + (store * dict) :=
  let st0 : store := <[exec_locals_ref := ∅]>
                       {[exec_globals_ref := exec_globals_init injected]} in
  match exec_module st0 safe_builtins exec_globals_ref exec_locals_ref body with
  | inl err => inl err
  | inr st =>
      inr (st, default ∅ (st !! exec_locals_ref) ∪ default ∅ (st !! exec_globals_ref))
  end.

(** [ns[name](...)] for an entry point without arguments, as the tests call
    [run_on_data]. *)
Definition call_entry (r : store * dict) (name : string) : string + pyobj :=
  match r.2 !! name with
  | Some (OFun g body) => eval exec_fuel r.1 safe_builtins g None body
  | Some _ => inl "TypeError: object is not callable"
  | None => inl ("KeyError: " +:+ name)
  end.

(** The module of [test_execute_with_helper_function]
    (tests/test_safe_executor.py): [run_on_data] calls the sibling
    [helper_function], which returns [42]. *)
Definition helper_snippet : list stmt :=
  [SDef "helper_function" (PInt 42);
   SDef "run_on_data" (PCall (PName "helper_function"))].

End Executor.

(* ================================================================== *)
(** * The backtester *)
(* ================================================================== *)

Module Backtester.

Open Scope string_scope.

(** ** [float] fields given as strings

    pydantic-core's [str_as_float] in lax mode: [str.trim().parse::<f64>()],
    and when that fails, the same parse (without the trim) on the string
    with its underscores removed, provided it neither starts nor ends with
    [_] nor holds [__]. A Python [str] is held as its UTF-8 bytes.

    A literal that Rust's [f64::from_str] accepts: a finite value
    [(-1)^neg * m * 10^e] with [m >= 0], an infinity, or NaN. *)
Inductive num_lit :=
  | LitFinite (neg : bool) (m : Z) (e : Z)
  | LitInf (neg : bool)
  | LitNaN.

(** The byte [n]. *)
Definition byte (n : nat) : ascii := ascii_of_nat n.

(** The white space that Rust's [str::trim] removes: the ASCII characters
    [\t \n \v \f \r] and the space, and the UTF-8 encodings of the other
    Unicode [White_Space] characters (U+0085, U+00A0, U+1680,
    U+2000..U+200A, U+2028, U+2029, U+202F, U+205F, U+3000). *)
Definition ws_seqs : list (list ascii) :=
  map (map byte)
    (app [[9]; [10]; [11]; [12]; [13]; [32]; [194; 133]; [194; 160]; [225; 154; 128]]
      (app (map (fun k => [226; 128; k]) (seq 128 11))
        [[226; 128; 168]; [226; 128; 169]; [226; 128; 175]; [226; 129; 159]; [227; 128; 128]]))%nat.

Fixpoint is_prefix (w s : list ascii) : bool :=
  match w, s with
  | [], _ => true
  | c :: w', d :: s' => Ascii.eqb c d && is_prefix w' s'
  | _ :: _, [] => false
  end.

(** Removes leading occurrences of the byte sequences [seqs]. *)
Fixpoint strip_seqs (seqs : list (list ascii)) (fuel : nat) (s : list ascii) : list ascii :=
  match fuel with
  | O => s
  | S f =>
      match List.find (fun w => is_prefix w s) seqs with
      | Some w => strip_seqs seqs f (drop (length w) s)
      | None => s
      end
  end.

(** [str::trim] *)
Definition rust_trim (s : list ascii) : list ascii :=
  let s1 := strip_seqs ws_seqs (length s) s in
  rev (strip_seqs (map (@rev ascii) ws_seqs) (length s1) (rev s1)).

Definition digit_val (c : ascii) : option Z :=
  let n := nat_of_ascii c in
  if ((48 <=? n) && (n <=? 57))%nat then Some (Z.of_nat n - 48)%Z else None.

(** The leading decimal digits of [s] added to [acc]: the value, the
    number of digits and the rest. *)
Fixpoint digits (s : list ascii) (acc : Z) (k : nat) : Z * nat * list ascii :=
  match s with
  | c :: rest =>
      match digit_val c with
      | Some v => digits rest (10 * acc + v)%Z (S k)
      | None => (acc, k, s)
      end
  | [] => (acc, k, s)
  end.

(** The digits of an exponent: Rust stops accumulating once the value
    reaches [0x10000], so a longer exponent keeps that bounded value. *)
Fixpoint exp_digits (s : list ascii) (acc : Z) (k : nat) : Z * nat * list ascii :=
  match s with
  | c :: rest =>
      match digit_val c with
      | Some v => exp_digits rest (if (acc <? 65536)%Z then 10 * acc + v else acc)%Z (S k)
      | None => (acc, k, s)
      end
  | [] => (acc, k, s)
  end.

Definition sign (s : list ascii) : bool * list ascii :=
  match s with
  | "-"%char :: rest => (true, rest)
  | "+"%char :: rest => (false, rest)
  | _ => (false, s)
  end.

Definition ascii_lower (c : ascii) : ascii :=
  let n := nat_of_ascii c in
  if ((65 <=? n) && (n <=? 90))%nat then ascii_of_nat (n + 32) else c.

Definition eq_ignore_case (s : list ascii) (w : string) : bool :=
  bool_decide (map ascii_lower s = list_ascii_of_string w).

(** [Digit* ['.' Digit*] [('e'|'E') [sign] Digit+]] with at least one
    mantissa digit, as the whole string: the mantissa as an integer and
    the decimal exponent. *)
Definition parse_decimal (s : list ascii) : option (Z * Z) :=
  let '(ip, ni, r1) := digits s 0 0 in
  let '(m, nf, r2) := match r1 with
                      | "."%char :: r => digits r ip 0
                      | _ => (ip, 0%nat, r1)
                      end in
  if (ni + nf =? 0)%nat then None else
  let e0 := (- Z.of_nat nf)%Z in
  match r2 with
  | [] => Some (m, e0)
  | c :: r3 =>
      if Ascii.eqb (ascii_lower c) "e"%char then
        let '(eneg, r4) := sign r3 in
        let '(ev, ne, r5) := exp_digits r4 0 0 in
        match ne, r5 with
        | S _, [] => Some (m, e0 + (if eneg then - ev else ev))%Z
        | _, _ => None
        end
      else None
  end.

(** [s.parse::<f64>()]: an optional sign, then [inf], [infinity] or [nan]
    in any case, or a decimal literal. *)
Definition rust_parse_f64 (s : list ascii) : option num_lit :=
  let '(neg, r) := sign s in
  if eq_ignore_case r "inf" || eq_ignore_case r "infinity" then Some (LitInf neg)
  else if eq_ignore_case r "nan" then Some LitNaN
  else match parse_decimal r with
       | Some (m, e) => Some (LitFinite neg m e)
       | None => None
       end.

Fixpoint has_double_underscore (s : list ascii) : bool :=
  match s with
  | "_"%char :: (("_"%char :: _) as rest) => true
  | _ :: rest => has_double_underscore rest
  | [] => false
  end.

(** pydantic-core's [strip_underscores] *)
Definition strip_underscores (s : list ascii) : option (list ascii) :=
  match s with
  | "_"%char :: _ => None
  | _ =>
      if (match last s with Some "_"%char => true | _ => false end) || has_double_underscore s
      then None
      else Some (List.filter (fun c => negb (Ascii.eqb c "_"%char)) s)
  end.

(** pydantic-core's [str_as_float] *)
Definition str_as_float (str : string) : option num_lit :=
  let s := list_ascii_of_string str in
  match rust_parse_f64 (rust_trim s) with
  | Some l => Some l
  | None => strip_underscores s ≫= rust_parse_f64
  end.

(** The exact value of a finite literal; the rationals have no infinity
    and no NaN, so the exact instance has no value for those strings. *)
Definition Q_of_lit (l : num_lit) : option Q :=
  match l with
  | LitFinite neg m e =>
      let q := if (0 <=? e)%Z then inject_Z (m * 10 ^ e) else Qmake m (Z.to_pos (10 ^ (- e))) in
      Some (if neg then Qopp q else q)
  | _ => None
  end.

(** [n / d] for [n, d > 0], rounded to the nearest binary64 value, ties to
    even (the rounding of [f64::from_str]): the quotient is scaled by [2^s]
    into [[2^52, 2^53)], or to [2^-1074] units for subnormal results, and
    rounded; [ldexp] of the rounded quotient is then exact, or overflows
    to infinity. *)
Definition round_ratio (n d : Z) : float :=
  let scaled (s : Z) := if (0 <=? s)%Z then (Z.shiftl n s, d) else (n, Z.shiftl d (- s)) in
  let s0 := (52 - (Z.log2 n - Z.log2 d))%Z in
  let s1 := let '(N, D) := scaled s0 in if (N / D <? 2 ^ 52)%Z then (s0 + 1)%Z else s0 in
  let s := Z.min s1 1074 in
  let '(N, D) := scaled s in
  let q := (N / D)%Z in
  let r := (N mod D)%Z in
  let q' := if (D <? 2 * r)%Z || ((2 * r =? D)%Z && Z.odd q) then (q + 1)%Z else q in
  FloatOps.Z.ldexp (PrimFloat.of_uint63 (Uint63.of_Z q')) (- s).

(** The binary64 value of a literal. A value below [2^-1076] rounds to
    zero and one at or above [2^1025] to infinity; these bounds, found
    with [8^e <= 10^e], keep the exact computation small. *)
Definition float_of_lit (l : num_lit) : float :=
  match l with
  | LitNaN => PrimFloat.nan
  | LitInf neg => if neg then PrimFloat.neg_infinity else PrimFloat.infinity
  | LitFinite neg m e =>
      let v := if (m =? 0)%Z then 0%float
               else if (3 * e + Z.log2 m + 1 <? -1076)%Z then 0%float
               else if (0 <=? e)%Z && (1025 <=? 3 * e + Z.log2 m)%Z then PrimFloat.infinity
               else if (0 <=? e)%Z then round_ratio (m * 10 ^ e) 1
               else round_ratio m (10 ^ (- e)) in
      if neg then PrimFloat.opp v else v
  end.

(** The arithmetic of Python [float] that the backtester uses. The code is
    stated once over any instance; [NumQ] computes exactly (rationals),
    [NumFloat] computes with IEEE-754 binary64, as CPython does. *)
Class Num (R : Type) := {
  n_zero : R;
  n_one : R;
  n_add : R -> R -> R;
  n_sub : R -> R -> R;
  n_mul : R -> R -> R;
  n_div : R -> R -> R;
  n_leb : R -> R -> bool;
  n_ltb : R -> R -> bool;
  (** the absolute tolerance [1e-12] *)
  n_eps : R;
  n_of_Z : Z -> R;
  (** [float(s)] on a string, as pydantic's lax mode applies it *)
  n_parse : string -> option R;
}.

#[global] Instance NumQ : Num Q := {|
  n_zero := 0%Q; n_one := 1%Q;
  n_add := Qplus; n_sub := Qminus; n_mul := Qmult; n_div := Qdiv;
  n_leb := Qle_bool; n_ltb := fun a b => negb (Qle_bool b a);
  n_eps := (1 # 1000000000000)%Q;
  n_of_Z := inject_Z;
  n_parse := fun s => str_as_float s ≫= Q_of_lit;
|}.

Definition float_of_Z (z : Z) : float :=
  if (z <? 0)%Z then PrimFloat.opp (PrimFloat.of_uint63 (Uint63.of_Z (- z)))
  else PrimFloat.of_uint63 (Uint63.of_Z z).

#[global] Instance NumFloat : Num float := {|
  n_zero := 0%float; n_one := 1%float;
  n_add := PrimFloat.add; n_sub := PrimFloat.sub;
  n_mul := PrimFloat.mul; n_div := PrimFloat.div;
  n_leb := PrimFloat.leb; n_ltb := PrimFloat.ltb;
  n_eps := 1e-12%float;
  n_of_Z := float_of_Z;
  n_parse := fun s => float_of_lit <$> str_as_float s;
|}.

Section Model.
Context {R : Type} `{!Num R}.

(** ** Order payloads and [OrdersAdapter] *)

(** The Python values a strategy can return; a [dict] is an association
    list with string keys. *)
Inductive pyval :=
  | VNone
  | VBool (b : bool)
  | VInt (z : Z)
  | VFloat (x : R)
  | VStr (s : string)
  | VList (xs : list pyval)
  | VDict (kvs : list (string * pyval)).

Record buy_order := {
  b_amount : R;
  b_stop_loss : option R;
  b_take_profit : option R;
}.

Record sell_order := {
  s_holding_id : string;
  s_amount : R;
}.

(** [Order = Union[BuyOrder, SellOrder]] discriminated by [action]; the
    literal fields [action] and [asset] carry no information once
    validated. *)
Inductive order :=
  | Buy (o : buy_order)
  | Sell (o : sell_order).

Fixpoint dict_lookup (k : string) (kvs : list (string * pyval)) : option pyval :=
  match kvs with
  | [] => None
  | (k', v) :: rest => if String.eqb k k' then Some v else dict_lookup k rest
  end.

(** A [float] field in pydantic's lax mode: floats, ints, bools and
    numeric strings are accepted. *)
Definition float_field (v : pyval) : option R :=
  match v with
  | VFloat x => Some x
  | VInt z => Some (n_of_Z z)
  | VBool b => Some (if b then n_one else n_zero)
  | VStr s => n_parse s
  | _ => None
  end.

(** A required field: missing is an error. *)
Definition req {A} (f : pyval -> option A) (k : string)
    (kvs : list (string * pyval)) : option A :=
  dict_lookup k kvs ≫= f.

(** An [Optional[float] = None] field: missing or [None] gives [None]. *)
Definition opt_float (k : string) (kvs : list (string * pyval)) : option (option R) :=
  match dict_lookup k kvs with
  | None | Some VNone => Some None
  | Some v => Some <$> float_field v
  end.

(** A [str] field: only strings. *)
Definition str_field (v : pyval) : option string :=
  match v with VStr s => Some s | _ => None end.

(** A [Literal["BTC"]] field. *)
Definition btc_field (v : pyval) : option unit :=
  match v with VStr s => if String.eqb s "BTC" then Some tt else None | _ => None end.

(** [BuyOrder.model_validate]: keys other than the fields are ignored
    (pydantic's default [extra="ignore"]). *)
Definition validate_buy (kvs : list (string * pyval)) : option order :=
  _ ← req btc_field "asset" kvs;
  a ← req float_field "amount" kvs;
  sl ← opt_float "stop_loss" kvs;
  tp ← opt_float "take_profit" kvs;
  Some (Buy {| b_amount := a; b_stop_loss := sl; b_take_profit := tp |}).

Definition validate_sell (kvs : list (string * pyval)) : option order :=
  hid ← req str_field "holding_id" kvs;
  a ← req float_field "amount" kvs;
  Some (Sell {| s_holding_id := hid; s_amount := a |}).

(** One element of [list[Order]]: the [action] tag selects the model. *)
Definition validate_order (v : pyval) : option order :=
  match v with
  | VDict kvs =>
      match dict_lookup "action" kvs with
      | Some (VStr tag) =>
          if String.eqb tag "BUY" then validate_buy kvs
          else if String.eqb tag "SELL" then validate_sell kvs
          else None
      | _ => None
      end
  | _ => None
  end.

(** [OrdersAdapter.validate_python(raw_orders)]: one [ValidationError] for
    the whole list when some element fails. *)
Definition validate_orders (raw : list pyval) : string + list order :=
  match mapM validate_order raw with
  | Some os => inr os
  | None => inl "invalid order payload(s)"
  end.

End Model.

Arguments pyval R : clear implicits.
Arguments order R : clear implicits.

(** ** The ledger *)

Inductive asset := USD | BTC.

#[global] Instance asset_eq_dec : EqDecision asset.
Proof. solve_decision. Defined.

Section Ledger.
Context {R : Type} `{!Num R}.

(** [HoldingState] *)
Record holding := {
  holding_id : string;
  asset_of : asset;
  amount : R;
  stop_loss : option R;
  take_profit : option R;
}.

(** The mutable part of a [StrategyBacktester]: [_holdings] and
    [_next_id]. *)
Record ledger := {
  holdings : list holding;
  next_id : nat;
}.

Definition set_amount (h : holding) (a : R) : holding :=
  {| holding_id := holding_id h; asset_of := asset_of h; amount := a;
     stop_loss := stop_loss h; take_profit := take_profit h |}.

Definition set_holdings (L : ledger) (hs : list holding) : ledger :=
  {| holdings := hs; next_id := next_id L |}.

(** A computation on the ledger that may raise: the state is returned
    also on an exception, as the Python object keeps its mutations. *)
Definition M (A : Type) : Type := ledger -> (string + A) * ledger.

Definition ret {A} (x : A) : M A := fun L => (inr x, L).
Definition raise {A} (msg : string) : M A := fun L => (inl msg, L).
Definition bind {A B} (m : M A) (k : A -> M B) : M B :=
  fun L => match m L with
           | (inr x, L') => k x L'
           | (inl e, L') => (inl e, L')
           end.

Notation "m ;;; k" := (bind m (fun _ => k)) (at level 62, right associativity).

Definition is_usd (h : holding) : bool :=
  match asset_of h with USD => true | BTC => false end.

Definition is_btc (h : holding) : bool := negb (is_usd h).

Definition has_id (hid : string) (h : holding) : bool := String.eqb (holding_id h) hid.

(** Mutating the object that [for h in self._holdings: if p(h): return h]
    finds: the first element satisfying [p]. *)
Fixpoint update_first (p : holding -> bool) (f : holding -> holding)
    (hs : list holding) : list holding :=
  match hs with
  | [] => []
  | h :: rest => if p h then f h :: rest else h :: update_first p f rest
  end.

(** [_reset_portfolio] *)
Definition INITIAL_PORTFOLIO_USD : R := n_of_Z 10000.
Definition USD_HOLDING_ID : string := "USD".

Definition reset_portfolio : ledger :=
  {| holdings := [{| holding_id := USD_HOLDING_ID; asset_of := USD;
                     amount := INITIAL_PORTFOLIO_USD;
                     stop_loss := None; take_profit := None |}];
     next_id := 1 |}.

(** [_new_holding_id] *)
Definition holding_id_of (n : nat) : string := "H" +:+ pretty n.

(** [_get_usd_holding], [_find_holding] *)
Definition get_usd_holding (hs : list holding) : option holding := List.find is_usd hs.
Definition find_holding (hid : string) (hs : list holding) : option holding :=
  List.find (has_id hid) hs.

(** [_apply_buy(order, execution_price)] *)
Definition apply_buy (o : buy_order) (price : R) : M unit := fun L =>
  if n_leb (b_amount o) n_zero then (inl "BUY amount must be > 0.", L) else
  match get_usd_holding (holdings L) with
  | None => (inl "USD holding missing from portfolio state.", L)
  | Some usd =>
      let cost := n_mul (b_amount o) price in
      if n_ltb (n_add (amount usd) n_eps) cost
      then (inl "Insufficient USD for BUY", L)
      else
        let hs := update_first is_usd (fun h => set_amount h (n_sub (amount h) cost))
                    (holdings L) in
        let nh := {| holding_id := holding_id_of (next_id L); asset_of := BTC;
                     amount := b_amount o; stop_loss := b_stop_loss o;
                     take_profit := b_take_profit o |} in
        (inr tt, {| holdings := hs ++ [nh]; next_id := S (next_id L) |})
  end.

(** [_apply_sell(order, execution_price)] *)
Definition apply_sell (o : sell_order) (price : R) : M unit := fun L =>
  if n_leb (s_amount o) n_zero then (inl "SELL amount must be > 0.", L) else
  if String.eqb (s_holding_id o) USD_HOLDING_ID
  then (inl "Cannot SELL the USD holding via SELL order.", L) else
  match find_holding (s_holding_id o) (holdings L) with
  | None => (inl "SELL refers to non-existing holding_id", L)
  | Some target =>
      if is_usd target then (inl "SELL holding must be BTC", L) else
      if n_ltb (n_add (amount target) n_eps) (s_amount o)
      then (inl "Cannot SELL more than holding contains", L) else
      let proceeds := n_mul (s_amount o) price in
      let remaining := n_sub (amount target) (s_amount o) in
      (* target.amount -= order.amount *)
      let hs1 := update_first (has_id (s_holding_id o))
                   (fun h => set_amount h remaining) (holdings L) in
      match get_usd_holding hs1 with
      | None => (inl "USD holding missing from portfolio state.", set_holdings L hs1)
      | Some _ =>
          let hs2 := update_first is_usd
                       (fun h => set_amount h (n_add (amount h) proceeds)) hs1 in
          let hs3 := if n_leb remaining n_eps
                     then List.filter (fun h => negb (has_id (holding_id target) h)) hs2
                     else hs2 in
          (inr tt, set_holdings L hs3)
      end
  end.

(** [_apply_orders(orders, execution_price)] *)
Fixpoint apply_orders (os : list (order R)) (price : R) : M unit :=
  match os with
  | [] => ret tt
  | Buy o :: rest => apply_buy o price ;;; apply_orders rest price
  | Sell o :: rest => apply_sell o price ;;; apply_orders rest price
  end.

(** [h.stop_loss is not None and low <= float(h.stop_loss)]: the price
    to sell at when the stop-loss fires. *)
Definition sl_fires (low : R) (h : holding) : option R :=
  match stop_loss h with
  | Some s => if n_leb low s then Some s else None
  | None => None
  end.

(** [h.take_profit is not None and high >= float(h.take_profit)] *)
Definition tp_fires (high : R) (h : holding) : option R :=
  match take_profit h with
  | Some t => if n_leb t high then Some t else None
  | None => None
  end.

(** [SellOrder(action="SELL", holding_id=h.holding_id, amount=float(h.amount))] *)
Definition sell_all (h : holding) : sell_order :=
  {| s_holding_id := holding_id h; s_amount := amount h |}.

(** The loop of [_auto_close_on_thresholds] over the holdings snapshotted
    at its start. [h] is read from the snapshot: it is the object in the
    book, and only its own sale (which ends its iteration) mutates it. *)
Fixpoint auto_close_loop (low high : R) (hs : list holding) : M unit :=
  match hs with
  | [] => ret tt
  | h :: rest => fun L =>
      match find_holding (holding_id h) (holdings L) with
      | None => auto_close_loop low high rest L
      | Some _ =>
          match sl_fires low h with
          | Some s => (apply_sell (sell_all h) s ;;; auto_close_loop low high rest) L
          | None =>
              match find_holding (holding_id h) (holdings L) with
              | None => auto_close_loop low high rest L
              | Some _ =>
                  match tp_fires high h with
                  | Some t => (apply_sell (sell_all h) t ;;; auto_close_loop low high rest) L
                  | None => auto_close_loop low high rest L
                  end
              end
          end
      end
  end.

(** [_auto_close_on_thresholds(day_row)] *)
Definition auto_close_on_thresholds (low high : R) : M unit := fun L =>
  auto_close_loop low high
    (List.filter (fun h => is_btc h && n_ltb n_eps (amount h)) (holdings L)) L.

End Ledger.

Arguments holding R : clear implicits.
Arguments ledger R : clear implicits.

(** ** The price table *)

Section Prices.
Context {R : Type} `{!Num R}.

(** A row of [self.df]: the index (a calendar day, as a day number) and
    the OHLCV columns. *)
Record bar := {
  date : Z;
  open_ : R;
  high : R;
  low : R;
  close : R;
  volume : Z;
}.

Definition bar_le (a b : bar) : Prop := (date a <= date b)%Z.

#[global] Instance bar_le_dec : RelDecision bar_le.
Proof. intros a b. unfold bar_le. apply _. Defined.

(** [HistoricalDailyPricesHelper(csv_path)]: [self.df = df.sort_index()]. *)
Definition load_prices (rows : list bar) : list bar := merge_sort bar_le rows.

(** A timezone-naive timestamp: the calendar day and the time of day in
    seconds. The index of [self.df], parsed from the CSV's dates, holds
    naive timestamps. *)
Record timestamp := {
  ts_day : Z;
  ts_secs : Z;
}.

(** [_to_timestamp(value)]: [pd.Timestamp(ts).normalize()] keeps the day. *)
Definition to_timestamp (d : timestamp) : Z := ts_day d.

(** [self.df.index.searchsorted(cutoff, side="right")] on the sorted index:
    the length of the prefix of dates [<= cutoff]. *)
Fixpoint searchsorted_right (ds : list Z) (v : Z) : nat :=
  match ds with
  | [] => 0
  | d :: rest => if (d <=? v)%Z then S (searchsorted_right rest v) else 0
  end.

(** [get_df_until_date(date)] on a date that parses to a naive timestamp
    ([_with_date_column] only renames the index). *)
Definition get_df_until_date (df : list bar) (d : timestamp) : list bar :=
  let cutoff := to_timestamp d in
  let e := searchsorted_right (map date df) cutoff in
  take e df.

(** What [pd.to_datetime(value, utc=False)] gives for a date-like value
    that parses: a naive timestamp, a timestamp carrying a UTC offset (in
    seconds; an ISO string such as ["2024-01-02T00:00:00+02:00"] or an
    aware [datetime]), or [NaT] (from [""] or ["NaT"]). *)
Inductive date_like :=
  | DNaive (t : timestamp)
  | DAware (t : timestamp) (offset : Z)
  | DNaT.

(** [get_df_until_date(date)] on any date that parses: [normalize()]
    keeps the offset and keeps [NaT]; [searchsorted] of a tz-aware cutoff
    in the naive index raises [TypeError]; [NaT] sorts after every date,
    so [searchsorted(NaT, side="right")] is the length of the index. *)
Definition get_df_until_date_any (df : list bar) (d : date_like) : string + list bar :=
  match d with
  | DNaive t => inr (get_df_until_date df t)
  | DAware _ _ => inl "TypeError: Cannot compare tz-naive and tz-aware datetime-like objects"
  | DNaT => inr df
  end.

(** [_validate_and_slice_range(start, end)] returning the subset; the
    bounds of an empty table are [NaT], with which every comparison is
    false. *)
Definition validate_and_slice_range (df : list bar) (start end_ : timestamp)
    : string + list bar :=
  let s := to_timestamp start in
  let e := to_timestamp end_ in
  if (e <? s)%Z then inl "Invalid range: start is after end." else
  let out_of_bounds :=
    match df, last df with
    | b0 :: _, Some bl => ((s <? date b0) || (date bl <? e))%Z
    | _, _ => false
    end in
  if out_of_bounds then inl "Date range is outside the dataset bounds" else
  let subset := List.filter (fun b => (s <=? date b) && (date b <=? e))%Z df in
  match subset with
  | [] => inl "No rows found in range"
  | _ => inr subset
  end.

(** [get_trading_dates(start, end)] *)
Definition get_trading_dates (df : list bar) (start end_ : timestamp) : string + list Z :=
  match validate_and_slice_range df start end_ with
  | inl e => inl e
  | inr subset => inr (map date subset)
  end.

End Prices.

Arguments bar R : clear implicits.

(** ** The day loop of [test_strategy] *)

Section Engine.
Context {R : Type} `{!Num R}.

(** [HoldingSnapshot] *)
Record snapshot := {
  sn_holding_id : string;
  sn_asset : asset;
  sn_amount : R;
  sn_unit_value_usd : R;
  sn_total_value_usd : R;
  sn_stop_loss : option R;
  sn_take_profit : option R;
}.

(** [_snapshot_holdings_with_price(btc_price)] *)
Definition snapshot_holdings_with_price (hs : list (holding R)) (btc_price : R)
    : list snapshot :=
  map (fun h =>
         let unit := if is_usd h then n_one else btc_price in
         {| sn_holding_id := holding_id h; sn_asset := asset_of h;
            sn_amount := amount h; sn_unit_value_usd := unit;
            sn_total_value_usd := n_mul (amount h) unit;
            sn_stop_loss := stop_loss h; sn_take_profit := take_profit h |}) hs.

(** [_last_known_close(day_df)]: [day_df["Close"].iloc[-1]], an
    [IndexError] on an empty frame. *)
Definition last_known_close (df : list (bar R)) : option R := close <$> last df.

(** What [runner(df, holdings)] does: it raises an [Exception], raises a
    [BaseException] that is not an [Exception] ([SystemExit],
    [KeyboardInterrupt], ...), returns [None], returns something that is
    not a list, or returns a list. *)
Inductive strat_out :=
  | SRaise
  | SRaiseBase
  | SReturnNone
  | SReturnNonList
  | SReturnList (raw : list (pyval R)).

(** The results of [test_strategy]: each error category is a constructor
    (the Python code returns the message string). *)
Inductive outcome :=
  | ODateRangeError (msg : string)
  | OWarmupError
  | OCodeValidationError
  | OHistoryError (day : Z)
  | OExecutionError
  | OOrderError (msg : string)
  | OUnexpectedError (msg : string)
  (** no result: the exception propagates out of [test_strategy], since
      neither [except Exception] clause catches it *)
  | OPropagated
  | OResult (hs : list snapshot) (total_portfolio_usd : R) (revenue_percent : R).

(** One call of the strategy: the day, the [df] and the [holdings] passed,
    and the ledger at the time of the call. *)
Record call := {
  c_day : Z;
  c_df : list (bar R);
  c_holdings : list snapshot;
  c_ledger : ledger R;
}.

(** The strategy is a callable with private state of type [St] (a Python
    function can keep state in its closure or module globals). *)
Variable St : Type.
Variable runner : St -> list (bar R) -> list snapshot -> strat_out * St.

Definition day_ts (d : Z) : timestamp := {| ts_day := d; ts_secs := 0 |}.

(** [self.prices.df.loc[day]] read through [_row_open], [_row_low],
    [_row_high] or [_row_close] ([float(row["Open"])], ...): a date that
    occurs once gives its row; a missing date raises [KeyError]; a date
    that occurs more than once makes [df.loc] return a [DataFrame], whose
    column is a [Series] of several values on which [float(...)] raises
    [TypeError]. *)
Definition find_row (df : list (bar R)) (d : Z) : option (bar R) :=
  match List.filter (fun b => (date b =? d)%Z) df with
  | [b] => Some b
  | _ => None
  end.

(** The exception of a failed [find_row]. *)
Definition row_error (df : list (bar R)) (d : Z) : string :=
  if existsb (fun b => (date b =? d)%Z) df then "TypeError" else "KeyError".

(** One iteration of [for day in dates]: either a result that ends the run
    or the new strategy state and ledger. *)
Definition day_step (df : list (bar R)) (day : Z) (s : St) (L : ledger R)
    : option call * (outcome + (St * ledger R)) :=
  let day_df := get_df_until_date df (day_ts (day - 1)) in
  match day_df with
  | [] => (None, inl (OHistoryError day))
  | _ =>
  match last_known_close day_df with
  | None => (None, inl (OUnexpectedError "IndexError"))
  | Some last_known_btc =>
  match find_row df day with
  | None => (None, inl (OUnexpectedError (row_error df day)))
  | Some day_row =>
  let payload := snapshot_holdings_with_price (holdings L) last_known_btc in
  let c := Some {| c_day := day; c_df := day_df; c_holdings := payload; c_ledger := L |} in
  let (out, s') := runner s day_df payload in
  let raw := match out with
             | SRaise => inl OExecutionError
             | SRaiseBase => inl OPropagated
             | SReturnNone => inr []
             | SReturnNonList =>
                 inl (OOrderError "run(df, holdings) must return a list of orders")
             | SReturnList raw => inr raw
             end in
  match raw with
  | inl o => (c, inl o)
  | inr raw =>
  match validate_orders raw with
  | inl e => (c, inl (OOrderError e))
  | inr orders =>
  match apply_orders orders (open_ day_row) L with
  | (inl e, _) => (c, inl (OOrderError e))
  | (inr _, L1) =>
  match auto_close_on_thresholds (low day_row) (high day_row) L1 with
  | (inl e, _) => (c, inl (OOrderError e))
  | (inr _, L2) => (c, inr (s', L2))
  end end end end end end end.

(** The day loop, collecting the strategy calls. *)
Fixpoint run_days (df : list (bar R)) (days : list Z) (s : St) (L : ledger R)
    (trace : list call) : (outcome + ledger R) * list call :=
  match days with
  | [] => (inr L, trace)
  | d :: rest =>
      let (c, r) := day_step df d s L in
      let trace' := (trace ++ option_list c)%list in
      match r with
      | inl o => (inl o, trace')
      | inr (s', L') => run_days df rest s' L' trace'
      end
  end.

Definition sum_totals (sn : list snapshot) : R :=
  foldl (fun acc x => n_add acc (sn_total_value_usd x)) n_zero sn.

(** The final valuation at the last day's Close. *)
Definition final_result (df : list (bar R)) (dates : list Z) (L : ledger R) : outcome :=
  match last dates ≫= find_row df with
  | None =>
      OUnexpectedError (match last dates with Some d => row_error df d | None => "IndexError" end)
  | Some last_row =>
      let snaps := snapshot_holdings_with_price (holdings L) (close last_row) in
      let total := sum_totals snaps in
      let rev := n_mul (n_sub (n_div total INITIAL_PORTFOLIO_USD) n_one) (n_of_Z 100) in
      OResult snaps total rev
  end.

(** [test_strategy(start_date, end_date, trading_strategy_code)];
    [compiled] is the outcome of [_compile_and_get_run]: [None] when the
    code is rejected, else the strategy's initial state. *)
Definition test_strategy (df : list (bar R)) (start end_ : timestamp)
    (compiled : option St) : outcome * list call :=
  match get_trading_dates df start end_ with
  | inl e => (ODateRangeError e, [])
  | inr dates =>
      let first_day := default 0%Z (head dates) in
      match get_df_until_date df (day_ts (first_day - 1)) with
      | [] => (OWarmupError, [])
      | _ =>
          let L0 := reset_portfolio in
          match compiled with
          | None => (OCodeValidationError, [])
          | Some s0 =>
              match run_days df dates s0 L0 [] with
              | (inl o, tr) => (o, tr)
              | (inr L, tr) => (final_result df dates L, tr)
              end
          end
      end
  end.

End Engine.

Arguments snapshot R : clear implicits.
Arguments strat_out R : clear implicits.
Arguments outcome R : clear implicits.
Arguments call R : clear implicits.

End Backtester.

(* ================================================================== *)
(** * Properties stated about the backtester *)
(* ================================================================== *)

Module Specs.
Import Backtester.

Section Book.
Context {R : Type} `{!Num R}.

(** Exactly one holding has asset USD. *)
Definition one_usd (hs : list (holding R)) : Prop :=
  length (List.filter is_usd hs) = 1%nat.

(** No two holdings share a [holding_id]. *)
Definition ids_nodup (hs : list (holding R)) : Prop :=
  NoDup (map holding_id hs).

Definition wf_book (hs : list (holding R)) : Prop := one_usd hs /\ ids_nodup hs.

Definition usd_amount (L : ledger R) : option R := amount <$> get_usd_holding (holdings L).

(** Every holding satisfying [p] replaced by [f] of it. *)
Definition map_if (p : holding R -> bool) (f : holding R -> holding R) (hs : list (holding R)) :=
  map (fun h => if p h then f h else h) hs.

(** What a BUY does to each pre-existing holding: USD loses [cost]. *)
Definition buy_frame (cost : R) (h : holding R) : holding R :=
  if is_usd h then set_amount h (n_sub (amount h) cost) else h.

(** The holding a BUY appends. *)
Definition new_btc_holding (n : nat) (o : buy_order) : holding R :=
  {| holding_id := holding_id_of n; asset_of := BTC; amount := b_amount o;
     stop_loss := b_stop_loss o; take_profit := b_take_profit o |}.

(** What a SELL of [hid] does to each holding: the target keeps [rem] or
    disappears, USD gains [proceeds], the rest is untouched. *)
Definition sell_frame (hid : string) (rem proceeds : R) (h : holding R) : option (holding R) :=
  if has_id hid h then (if n_leb rem n_eps then None else Some (set_amount h rem))
  else if is_usd h then Some (set_amount h (n_add (amount h) proceeds))
  else Some h.

(** The price at which the intraday enforcement should close [h] on a day
    with range [low]..[high]: the stop-loss when it is set and reached,
    otherwise the take-profit when it is set and reached, otherwise none. *)
Definition close_price (low high : R) (h : holding R) : option R :=
  let tp := match take_profit h with
            | Some t => if n_leb t high then Some t else None
            | None => None
            end in
  match stop_loss h with
  | Some s => if n_leb low s then Some s else tp
  | None => tp
  end.

(** USD after crediting [amount * close price] for every holding of
    [snap] that closes, in order. *)
Definition credited (low high : R) (snap : list (holding R)) (u : R) : R :=
  fold_left (fun acc g => match close_price low high g with
                          | Some p => n_add acc (n_mul (amount g) p)
                          | None => acc
                          end) snap u.

(** [h] is one of the holdings of [snap] that close. *)
Definition closes (low high : R) (snap : list (holding R)) (h : holding R) : bool :=
  existsb (fun g => has_id (holding_id g) h &&
                    match close_price low high g with Some _ => true | None => false end) snap.

(** The book after the enforcement: closed holdings gone, USD credited,
    everything else as before. *)
Definition closed_book (low high : R) (snap hs : list (holding R)) : list (holding R) :=
  omap (fun h => if is_usd h then Some (set_amount h (credited low high snap (amount h)))
                 else if closes low high snap h then None else Some h) hs.

(** The arithmetic checks of a full SELL of [g] pass and its remainder
    [amount - amount] counts as empty. *)
Definition full_sale_ok (g : holding R) : bool :=
  negb (n_leb (amount g) n_zero) && negb (n_ltb (n_add (amount g) n_eps) (amount g))
  && n_leb (n_sub (amount g) (amount g)) n_eps.

(** No BTC holding carries the id ["USD"]. *)
Definition btc_ids_ok (hs : list (holding R)) : bool :=
  forallb (fun g => negb (is_btc g && String.eqb (holding_id g) USD_HOLDING_ID)) hs.

End Book.

(** ** The ledger invariant, in exact arithmetic *)

(** [b1] was issued before [b2]: their ids are [H k1] and [H k2] with
    [k1 < k2]. *)
Definition id_before (b1 b2 : holding Q) : Prop :=
  exists k1 k2, holding_id b1 = holding_id_of k1 /\ holding_id b2 = holding_id_of k2 /\
                (k1 < k2)%nat.

Definition tp_nonneg (b : holding Q) : Prop :=
  forall t, take_profit b = Some t -> (0 <= t)%Q.

(** USD first with id ["USD"] and amount [>= -1e-12]; then the BTC
    holdings, each with a positive amount and an id [H k] with
    [1 <= k < next_id], in increasing [k]. *)
Definition ledger_inv (L : ledger Q) : Prop :=
  exists u btcs,
    holdings L = u :: btcs /\
    holding_id u = USD_HOLDING_ID /\ asset_of u = USD /\ (- n_eps <= amount u)%Q /\
    Forall (fun b => asset_of b = BTC /\ (0 < amount b)%Q /\ tp_nonneg b /\
                     exists k, holding_id b = holding_id_of k /\ (1 <= k < next_id L)%nat) btcs /\
    StronglySorted id_before btcs /\
    (1 <= next_id L)%nat.

(** The ledgers a run can produce from [_reset_portfolio], with positive
    bar prices (so a SELL at the open or at a fired stop-loss gets a
    non-negative price) and BUY orders whose take-profit, when set, is not
    negative; every intermediate state counts, failed calls included. *)
Inductive reachable : ledger Q -> Prop :=
  | reach_reset : reachable reset_portfolio
  | reach_buy L o p :
      reachable L -> (forall t, b_take_profit o = Some t -> (0 <= t)%Q) ->
      reachable (snd (apply_buy o p L))
  | reach_sell L o p :
      reachable L -> (0 <= p)%Q -> reachable (snd (apply_sell o p L))
  | reach_auto_close L low high :
      reachable L -> (0 < low)%Q -> reachable (snd (auto_close_on_thresholds low high L)).

(** The field names of [BuyOrder] and [SellOrder]. *)
Definition order_keys : list string :=
  ["action"; "asset"; "amount"; "stop_loss"; "take_profit"; "holding_id"].

End Specs.

(* ================================================================== *)
(** * More of the executor, the engine and the ledger *)
(* ================================================================== *)

Module ExecutorMore.
Import Executor.
Open Scope string_scope.

(** [name.startswith("_")] *)
Definition starts_with_underscore (s : string) : bool :=
  match s with
  | String c _ => Ascii.eqb c "_"%char
  | EmptyString => false
  end.

(** The default [banned_builtins] of [SafePythonCodeExecutor()]. *)
Definition default_banned_builtins : list string :=
  ["eval"; "exec"; "compile"; "open"; "input"; "breakpoint";
   "globals"; "locals"; "vars"; "dir"; "help"; "getattr"; "setattr"; "delattr"].

(** [_build_safe_builtins(safe_import)]: [py_builtins] is
    [py_builtins.__dict__.items()] in its order; the result is the dict
    that [MappingProxyType] exposes read-only. *)
Definition build_safe_builtins {V : Type} (banned_builtins : list string)
    (py_builtins : list (string * V)) (safe_import : V) : gmap string V :=
  let safe := foldl (fun (safe : gmap string V) '(name, obj) =>
                 if starts_with_underscore name && negb (String.eqb name "__build_class__")
                 then safe
                 else if mem name banned_builtins then safe
                 else <[name := obj]> safe) ∅ py_builtins in
  <["__import__" := safe_import]> safe.

(** [_safe_import(name, ...)]: [import_] is [py_builtins.__import__],
    which returns the module or raises. *)
Definition safe_import {V : Type} (ex : executor) (import_ : string -> string + V)
    (name : string) : string + V :=
  let top := split_top name in
  if mem top (allowed_modules ex) then import_ name
  else inl ("ImportError: Import blocked: " +:+ name).

(** [m] has no dot. *)
Definition no_dot (m : string) : bool :=
  negb (existsb (fun c => Ascii.eqb c "."%char) (list_ascii_of_string m)).

End ExecutorMore.

Module EngineMore.
Import Backtester.

(** The error category of [test_strategy] that the catch-all
    [except Exception] branch produces. *)
Definition is_unexpected {R : Type} (o : outcome R) : bool :=
  match o with OUnexpectedError _ => true | _ => false end.

End EngineMore.

Module LedgerMore.
Import Backtester.

Section Book.
Context {R : Type} `{!Num R}.

Definition is_buy (o : order R) : bool := match o with Buy _ => true | Sell _ => false end.

(** The number of BUY orders of a batch. *)
Definition count_buys (os : list (order R)) : nat := length (List.filter is_buy os).

(** [h'] is [h] with at most its amount changed. *)
Definition same_shape (h' h : holding R) : Prop :=
  holding_id h' = holding_id h /\ asset_of h' = asset_of h /\
  stop_loss h' = stop_loss h /\ take_profit h' = take_profit h.

(** The USD amounts and the BTC units of a book. *)
Definition usd_total (hs : list (holding R)) : R :=
  fold_right (fun h acc => if is_usd h then n_add (amount h) acc else acc) n_zero hs.
Definition btc_units (hs : list (holding R)) : R :=
  fold_right (fun h acc => if is_usd h then acc else n_add (amount h) acc) n_zero hs.

End Book.
End LedgerMore.

(* ================================================================== *)
(** * [strip_llm_formatting] (utils/code_utils.py) *)
(* ================================================================== *)

Module CodeUtils.
Open Scope string_scope.

(** [p in s] *)
Fixpoint contains (p s : string) : bool :=
  String.prefix p s || match s with EmptyString => false | String _ s' => contains p s' end.

(** The first occurrence of [p] in [s]: the text before it and the text
    after it. *)
Fixpoint split_first (p s : string) : option (string * string) :=
  if String.prefix p s then Some (EmptyString, substring (String.length p) (String.length s - String.length p) s)
  else match s with
       | EmptyString => None
       | String c s' =>
           match split_first p s' with
           | Some (a, b) => Some (String c a, b)
           | None => None
           end
       end.

(** [s.split(p)[0]] *)
Definition split0 (p s : string) : string :=
  match split_first p s with Some (a, _) => a | None => s end.

(** [s.split(p)[1]], [None] for the [IndexError] when [p] does not occur. *)
Definition split1 (p s : string) : option string :=
  match split_first p s with Some (_, b) => Some (split0 p b) | None => None end.

(** [str.isspace] on an ASCII character: [\t \n \v \f \r], the separators
    [\x1c]..[\x1f] and the space. *)
Definition py_isspace (c : ascii) : bool :=
  let n := nat_of_ascii c in (((9 <=? n) && (n <=? 13)) || ((28 <=? n) && (n <=? 32)))%nat.

Fixpoint lstrip (s : string) : string :=
  match s with
  | String c s' => if py_isspace c then lstrip s' else s
  | EmptyString => EmptyString
  end.

Fixpoint rstrip (s : string) : string :=
  match s with
  | EmptyString => EmptyString
  | String c s' =>
      match rstrip s' with
      | EmptyString => if py_isspace c then EmptyString else String c EmptyString
      | r => String c r
      end
  end.

(** [s.strip()] *)
Definition strip (s : string) : string := rstrip (lstrip s).

Definition fence_python : string := "```python".
Definition fence : string := "```".

(** [strip_llm_formatting(code)] (utils/code_utils.py) on ASCII text;
    [None] is the [IndexError] of [split(...)[1]]. *)
Definition strip_llm_formatting (code : string) : option string :=
  if contains fence_python code then
    match split1 fence_python code with
    | Some t => Some (strip (split0 fence t))
    | None => None
    end
  else Some code.

End CodeUtils.

(* ================================================================== *)
(** * Properties of the executor *)
(* ================================================================== *)

Module ExecutorFacts.
Import Executor.

Lemma exec_module_def (st : store) (bi : dict) (g l : nat) (x : string) (fb : pexpr)
    (rest : list stmt) :
  exec_module st bi g l (SDef x fb :: rest)
  = exec_module (dict_set st l x (OFun g fb)) bi g l rest.
Proof. reflexivity. Qed.

Lemma exec_module_assign (st : store) (bi : dict) (g l : nat) (x : string) (e : pexpr)
    (rest : list stmt) :
  exec_module st bi g l (SAssign x e :: rest)
  = match eval exec_fuel st bi g (Some l) e with
    | inr v => exec_module (dict_set st l x v) bi g l rest
    | inl err => inl err
    end.
Proof. reflexivity. Qed.

(** Every module-level binding of [exec_module] lands in the locals
    dictionary: the globals dictionary comes out as it went in. *)
Lemma exec_module_globals_untouched (st st' : store) (bi : dict) (glob loc : nat)
    (body : list stmt) :
  glob <> loc ->
  exec_module st bi glob loc body = inr st' ->
  st' !! glob = st !! glob.
Proof.
  intros Hne. revert st. induction body as [|[x fb|x e] rest IH]; intros st Hex.
  - injection Hex as <-. reflexivity.
  - rewrite exec_module_def in Hex. rewrite (IH _ Hex). unfold dict_set.
    rewrite lookup_insert_ne; [reflexivity|exact (not_eq_sym Hne)].
  - rewrite exec_module_assign in Hex.
    destruct (eval exec_fuel st bi glob (Some loc) e); [discriminate|].
    rewrite (IH _ Hex). unfold dict_set.
    rewrite lookup_insert_ne; [reflexivity|exact (not_eq_sym Hne)].
Qed.

(** [execute_compiled] runs the module with two distinct dictionaries, so
    the globals that the defined functions see never contain the module's
    own definitions (unless injected). *)
Lemma execute_compiled_globals_fresh (body : list stmt) (inj : option dict)
    (st : store) (ns : dict) :
  execute_compiled body inj = inr (st, ns) ->
  st !! exec_globals_ref = Some (exec_globals_init inj).
Proof.
  unfold execute_compiled. cbv zeta.
  destruct (exec_module (<[exec_locals_ref := ∅]> {[exec_globals_ref := exec_globals_init inj]})
              safe_builtins exec_globals_ref exec_locals_ref body) as [e|st1] eqn:Hex;
    [discriminate|].
  intros H. injection H as <- _.
  assert (Hne : exec_globals_ref <> exec_locals_ref) by discriminate.
  rewrite (exec_module_globals_untouched _ _ _ _ _ _ Hne Hex).
  reflexivity.
Qed.

(** C1 *)
(** C1 (code bug): in [execute_compiled] the globals and locals of the
    module-scope [exec] are two different dictionaries; on the module of
    [test_execute_with_helper_function], whose [run_on_data] calls the
    sibling [helper_function], the namespace holds both functions but
    calling [run_on_data] raises [NameError] instead of returning [42]. *)
Theorem execute_compiled_sibling_unresolved :
  exec_globals_ref <> exec_locals_ref /\
  exists r : store * dict,
    execute_compiled helper_snippet None = inr r /\
    r.2 !! "helper_function" = Some (OFun exec_globals_ref (PInt 42)) /\
    call_entry r "run_on_data" = inl "NameError: name 'helper_function' is not defined".
Proof.
  split; [discriminate|].
  eexists; split; [reflexivity|].
  split; vm_compute; reflexivity.
Qed.

(** A node that fails the screening makes [check_walk] fail. *)
Lemma check_walk_reject (ex : executor) (walk : list node) (nd : node) (msg : string) :
  In nd walk -> check_node ex nd = Some msg ->
  exists msg', check_walk ex walk = Some msg'.
Proof.
  induction walk as [|nd' rest IH]; simpl; [tauto|].
  intros [<-|Hin] Hck.
  - rewrite Hck. eauto.
  - destruct (check_node ex nd'); eauto.
Qed.

(** The absolute-import half of the screening: an [import m] or a
    [from m import ...] whose top-level module is outside the allow-list
    is rejected. *)
Lemma check_and_compile_rejects_disallowed (ex : executor) (code : string)
    (walk : list node) (nd : node) (m : string) :
  is_blank code = false -> In nd walk ->
  (nd = NImport [m] \/ exists lvl, nd = NImportFrom (Some m) lvl) ->
  mem (split_top m) (allowed_modules ex) = false ->
  forall comp, exists msg, check_and_compile ex code (Some (walk, comp)) = Rejected msg.
Proof.
  intros Hb Hin Hnd Hm comp. unfold check_and_compile. rewrite Hb.
  assert (exists msg, check_node ex nd = Some msg) as [msg Hck].
  { destruct Hnd as [->|[lvl ->]]; simpl; rewrite Hm; eauto. }
  destruct (check_walk_reject ex walk nd msg Hin Hck) as [msg' ->]. eauto.
Qed.

(** C3 *)
(** C3 (code bug): a relative import that names a module,
    [from .numpy import floor] ([module = "numpy"], [level = 1]), passes
    the screening of [check_and_compile]: only [module is None] is treated
    as relative, and the named module is checked against the allow-list as
    if it were absolute. *)
Theorem check_and_compile_accepts_relative_import :
  check_and_compile default_executor "from .numpy import floor"
    (Some ([NOther; NImportFrom (Some "numpy") 1; NOther], None))
  = Compiled [NOther; NImportFrom (Some "numpy") 1; NOther].
Proof. reflexivity. Qed.

End ExecutorFacts.

(* ================================================================== *)
(** * Properties of the price table and the day loop *)
(* ================================================================== *)

Module PriceFacts.
Import Backtester.

Section Prices.
Context {R : Type} `{!Num R}.

#[local] Instance bar_le_trans : Transitive (@bar_le R).
Proof. intros a b c. unfold bar_le. lia. Qed.

#[local] Instance bar_le_total : Total (@bar_le R).
Proof. intros a b. unfold bar_le. lia. Qed.

(** [self.df = df.sort_index()] leaves the table sorted by date. *)
Lemma load_prices_sorted (rows : list (bar R)) : StronglySorted bar_le (load_prices rows).
Proof. apply StronglySorted_merge_sort; apply _. Qed.

Lemma filter_StronglySorted {A} (le : A -> A -> Prop) (p : A -> bool) (l : list A) :
  StronglySorted le l -> StronglySorted le (List.filter p l).
Proof.
  induction 1 as [|x l Hs IH Hall]; simpl; [constructor|].
  destruct (p x); [|exact IH].
  constructor; [exact IH|].
  apply List.Forall_forall. intros y Hy. apply List.filter_In in Hy as [Hy _].
  rewrite List.Forall_forall in Hall. auto.
Qed.

Lemma filter_all_false {A} (p : A -> bool) (l : list A) :
  (forall x, In x l -> p x = false) -> List.filter p l = [].
Proof.
  induction l as [|x l IH]; intros H; [reflexivity|]. simpl.
  rewrite (H x (or_introl eq_refl)). apply IH. intros y Hy. apply H. right. exact Hy.
Qed.

(** On a sorted index, the prefix cut at [searchsorted(v, side="right")]
    is the subsequence of rows dated [<= v]. *)
Lemma take_searchsorted_right (df : list (bar R)) (v : Z) :
  StronglySorted bar_le df ->
  take (searchsorted_right (map date df) v) df = List.filter (fun b => (date b <=? v)%Z) df.
Proof.
  induction 1 as [|b rest Hs IH Hall]; [reflexivity|].
  cbn [map searchsorted_right List.filter].
  destruct (date b <=? v)%Z eqn:Hb.
  - cbn [take]. rewrite IH. reflexivity.
  - cbn [take]. symmetry. apply filter_all_false. intros x Hx.
    rewrite List.Forall_forall in Hall. specialize (Hall x Hx). unfold bar_le in Hall.
    apply Z.leb_gt in Hb. apply Z.leb_gt. lia.
Qed.

Lemma get_df_until_date_filter (df : list (bar R)) (d : timestamp) :
  StronglySorted bar_le df ->
  get_df_until_date df d = List.filter (fun b => (date b <=? ts_day d)%Z) df.
Proof. intros Hs. unfold get_df_until_date, to_timestamp. apply take_searchsorted_right, Hs. Qed.

(** On a naive [D], [get_df_until_date(D)] returns exactly the rows of
    the sorted table whose date is [<= D] after [D] is normalized to its
    calendar day, in ascending order; a [D] with a time of day still
    admits [D]'s own row; when no row qualifies the result is empty. *)
Lemma get_df_until_date_spec (rows : list (bar R)) (D : timestamp) :
  let df := load_prices rows in
  get_df_until_date df D = List.filter (fun b => (date b <=? ts_day D)%Z) df /\
  StronglySorted bar_le (get_df_until_date df D) /\
  (forall b, In b df -> date b = ts_day D -> In b (get_df_until_date df D)) /\
  ((forall b, In b df -> (ts_day D < date b)%Z) -> get_df_until_date df D = []).
Proof.
  intros df. pose proof (load_prices_sorted rows) as Hs. fold df in Hs.
  rewrite (get_df_until_date_filter df D Hs).
  split; [reflexivity|]. split; [|split].
  - apply filter_StronglySorted, Hs.
  - intros b Hb Hd. apply List.filter_In. split; [exact Hb|]. apply Z.leb_le. lia.
  - intros Hlt. apply filter_all_false. intros b Hb. apply Z.leb_gt, Hlt, Hb.
Qed.


End Prices.

Local Open Scope Q_scope.


Local Close Scope Q_scope.

End PriceFacts.

Module EngineFacts.
Import Backtester PriceFacts.

Section Engine.
Context {R : Type} `{!Num R}.
Context (St : Type) (runner : St -> list (bar R) -> list (snapshot R) -> strat_out R * St).

Lemma last_In {A} (l : list A) (x : A) : last l = Some x -> In x l.
Proof.
  induction l as [|y l IH]; [discriminate|].
  destruct l as [|z l].
  - intros [= ->]. left. reflexivity.
  - intros H. right. apply IH. exact H.
Qed.

Lemma last_nonempty {A} (l : list A) : l <> [] -> exists x, last l = Some x.
Proof.
  induction l as [|y l IH]; [congruence|]. intros _.
  destruct l as [|z l]; [eauto|]. apply IH. discriminate.
Qed.

Lemma snapshot_btc_unit (hs : list (holding R)) (p : R) (sn : snapshot R) :
  In sn (snapshot_holdings_with_price hs p) -> sn_asset sn = BTC ->
  sn_unit_value_usd sn = p.
Proof.
  unfold snapshot_holdings_with_price. intros Hin Ha.
  apply in_map_iff in Hin as [h [<- _]]. simpl in *.
  unfold is_usd. rewrite Ha. reflexivity.
Qed.

(** A strategy call recorded by [day_step] sees the view cut the day
    before, and holdings priced at the last close of that view. *)
Lemma day_step_call (df : list (bar R)) (d : Z) (s : St) (L : ledger R) (c : call R)
    (r : outcome R + (St * ledger R)) :
  day_step St runner df d s L = (Some c, r) ->
  c_day c = d /\ c_df c = get_df_until_date df (day_ts (d - 1)) /\
  exists p, last_known_close (c_df c) = Some p /\
            c_holdings c = snapshot_holdings_with_price (holdings (c_ledger c)) p.
Proof.
  unfold day_step. intros H.
  destruct (get_df_until_date df (day_ts (d - 1))) as [|b0 bs] eqn:Hdf; [discriminate|].
  destruct (last_known_close (b0 :: bs)) as [p|] eqn:Hp; [|discriminate].
  destruct (find_row df d) as [row|]; [|discriminate].
  destruct (runner s (b0 :: bs) _) as [out s'].
  assert (Hc : c = {| c_day := d; c_df := b0 :: bs;
                      c_holdings := snapshot_holdings_with_price (holdings L) p;
                      c_ledger := L |}).
  { repeat case_match; congruence. }
  subst c. simpl. eauto.
Qed.

Lemma run_days_trace (df : list (bar R)) (days : list Z) (s : St) (L : ledger R)
    (tr : list (call R)) (c : call R) :
  In c (snd (run_days St runner df days s L tr)) ->
  In c tr \/ exists d s0 L0 r, day_step St runner df d s0 L0 = (Some c, r).
Proof.
  revert s L tr. induction days as [|d rest IH]; intros s L tr; simpl; [auto|].
  destruct (day_step St runner df d s L) as [c' r] eqn:Hstep.
  assert (Happ : In c (tr ++ option_list c')%list ->
                 In c tr \/ exists d s0 L0 r, day_step St runner df d s0 L0 = (Some c, r)).
  { intros Hin. apply in_app_or in Hin as [Hin|Hin]; [auto|].
    destruct c' as [c''|]; simpl in Hin; [|tauto].
    destruct Hin as [<-|[]]. right. eauto. }
  destruct r as [o|[s' L']]; simpl.
  - exact Happ.
  - intros Hin. destruct (IH s' L' _ Hin) as [H|H]; auto.
Qed.

Lemma test_strategy_trace (df : list (bar R)) (start end_ : timestamp)
    (compiled : option St) (c : call R) :
  In c (snd (test_strategy St runner df start end_ compiled)) ->
  exists days s L, In c (snd (run_days St runner df days s L [])).
Proof.
  unfold test_strategy.
  destruct (get_trading_dates df start end_) as [e|dates]; simpl; [tauto|].
  destruct (get_df_until_date df _); simpl; [tauto|].
  destruct compiled as [s0|]; simpl; [|tauto].
  destruct (run_days St runner df dates s0 reset_portfolio []) as [[o|L] tr] eqn:Hr;
    simpl; intros Hin; exists dates, s0, reset_portfolio; rewrite Hr; exact Hin.
Qed.


Lemma row_error_not_index (df : list (bar R)) (d : Z) : row_error df d <> "IndexError".
Proof. unfold row_error. destruct (existsb _ df); discriminate. Qed.

Lemma trading_dates_nonempty (df : list (bar R)) (start end_ : timestamp) (dates : list Z) :
  get_trading_dates df start end_ = inr dates -> dates <> [].
Proof.
  unfold get_trading_dates.
  destruct (validate_and_slice_range df start end_) as [e|sub] eqn:Hv; [discriminate|].
  intros Hres. injection Hres as <-. unfold validate_and_slice_range in Hv.
  repeat case_match; try discriminate; injection Hv as <-; subst; simpl; discriminate.
Qed.

(** A non-empty view makes the in-loop warm-up error and the [IndexError]
    of [_last_known_close] impossible for that day. *)
Lemma day_step_view_errors (df : list (bar R)) (d : Z) (s : St) (L : ledger R)
    (o : outcome R) (x : Z) :
  get_df_until_date df (day_ts (d - 1)) <> [] ->
  snd (day_step St runner df d s L) = inl o ->
  o <> OHistoryError x /\ o <> OUnexpectedError "IndexError".
Proof.
  intros Hne. unfold day_step.
  destruct (get_df_until_date df (day_ts (d - 1))) as [|b0 bs] eqn:Hdf; [congruence|].
  destruct (last_known_close (b0 :: bs)) as [p|] eqn:Hp.
  2:{ exfalso. destruct (last_nonempty (b0 :: bs)) as [y Hy]; [discriminate|].
      unfold last_known_close in Hp. rewrite Hy in Hp. discriminate. }
  destruct (find_row df d) as [row|].
  2:{ simpl. intros H. injection H as <-. split; [discriminate|].
      intros E. injection E. apply row_error_not_index. }
  destruct (runner s (b0 :: bs) _) as [out s']. destruct out.
  all: repeat case_match; simpl; intros Hres; try discriminate; injection Hres as <-; split; discriminate.
Qed.

Lemma run_days_view_errors (df : list (bar R)) (days : list Z) (s : St) (L : ledger R)
    (tr tr' : list (call R)) (o : outcome R) (x : Z) :
  (forall d, In d days -> get_df_until_date df (day_ts (d - 1)) <> []) ->
  run_days St runner df days s L tr = (inl o, tr') ->
  o <> OHistoryError x /\ o <> OUnexpectedError "IndexError".
Proof.
  revert s L tr. induction days as [|d rest IH]; intros s L tr Hdays; simpl; [discriminate|].
  destruct (day_step St runner df d s L) as [c r] eqn:Hstep.
  destruct r as [o'|[s' L']].
  - intros H. injection H as <- _.
    apply (day_step_view_errors df d s L o' x (Hdays d (or_introl eq_refl))).
    rewrite Hstep. reflexivity.
  - apply IH. intros d' Hd'. apply Hdays. right. exact Hd'.
Qed.

Lemma validate_and_slice_range_subset (df : list (bar R)) (start end_ : timestamp)
    (sub : list (bar R)) :
  validate_and_slice_range df start end_ = inr sub ->
  sub = List.filter (fun b => (to_timestamp start <=? date b) && (date b <=? to_timestamp end_))%Z df.
Proof.
  unfold validate_and_slice_range.
  repeat case_match; try discriminate; intros Hres; injection Hres as <-; subst; congruence.
Qed.

(** The trading dates of a sorted table come out sorted. *)
Lemma get_trading_dates_sorted (df : list (bar R)) (start end_ : timestamp)
    (dates : list Z) :
  StronglySorted bar_le df ->
  get_trading_dates df start end_ = inr dates ->
  StronglySorted Z.le dates.
Proof.
  intros Hs. unfold get_trading_dates.
  destruct (validate_and_slice_range df start end_) as [e|sub] eqn:Hv; [discriminate|].
  intros Hres. injection Hres as <-.
  assert (Hsub : StronglySorted bar_le sub).
  { rewrite (validate_and_slice_range_subset _ _ _ _ Hv). apply filter_StronglySorted, Hs. }
  clear -Hsub. induction Hsub as [|b l Hl IH Hall]; simpl; constructor; [exact IH|].
  apply List.Forall_forall. intros z Hz. apply in_map_iff in Hz as [b' [<- Hb']].
  rewrite List.Forall_forall in Hall. apply (Hall b' Hb').
Qed.

(** A non-empty view stays non-empty at a later cutoff. *)
Lemma view_nonempty_mono (df : list (bar R)) (a b : Z) :
  StronglySorted bar_le df ->
  get_df_until_date df (day_ts a) <> [] -> (a <= b)%Z ->
  get_df_until_date df (day_ts b) <> [].
Proof.
  intros Hs Ha Hab. rewrite (get_df_until_date_filter df (day_ts a) Hs) in Ha.
  rewrite (get_df_until_date_filter df (day_ts b) Hs). simpl in *.
  destruct (List.filter (fun x => (date x <=? a)%Z) df) as [|y ys] eqn:Hf; [congruence|].
  assert (Hy : In y (List.filter (fun x => (date x <=? a)%Z) df)) by (rewrite Hf; left; reflexivity).
  apply List.filter_In in Hy as [Hy Hya]. apply Z.leb_le in Hya.
  intros Hnil. assert (Hin : In y (List.filter (fun x => (date x <=? b)%Z) df)).
  { apply List.filter_In. split; [exact Hy|]. apply Z.leb_le. lia. }
  rewrite Hnil in Hin. exact Hin.
Qed.


End Engine.
Local Open Scope Q_scope.


End EngineFacts.

Module LedgerFacts.
Import Backtester Specs.

Section Generic.
Context {R : Type} `{!Num R}.

Lemma map_if_none (p : holding R -> bool) f hs :
  List.filter p hs = [] -> map_if p f hs = hs.
Proof.
  unfold map_if. induction hs as [|h hs IH]; simpl; [reflexivity|].
  destruct (p h); [discriminate|]. intros H. f_equal. apply IH, H.
Qed.

(** When at most one holding satisfies [p], mutating the first one is
    mutating every one. *)
Lemma update_first_unique (p : holding R -> bool) f hs :
  (length (List.filter p hs) <= 1)%nat ->
  update_first p f hs = map_if p f hs.
Proof.
  induction hs as [|h hs IH]; simpl; [reflexivity|].
  unfold map_if in *. simpl. destruct (p h) eqn:Hp; simpl; intros Hl.
  - f_equal. symmetry. apply map_if_none. destruct (List.filter p hs); [reflexivity|].
    simpl in Hl. lia.
  - f_equal. apply IH, Hl.
Qed.

Lemma has_id_true (x : string) (h : holding R) : has_id x h = true <-> holding_id h = x.
Proof. unfold has_id. apply String.eqb_eq. Qed.

Lemma ids_nodup_filter_has_id (x : string) (hs : list (holding R)) :
  ids_nodup hs -> (length (List.filter (has_id x) hs) <= 1)%nat.
Proof.
  unfold ids_nodup. induction hs as [|h hs IH]; simpl; [lia|].
  intros Hnd. apply NoDup_cons in Hnd as [Hnin Hnd].
  destruct (has_id x h) eqn:Hh; simpl.
  - apply has_id_true in Hh. subst x.
    assert (List.filter (has_id (holding_id h)) hs = []) as ->; [|simpl; lia].
    apply PriceFacts.filter_all_false. intros y Hy.
    destruct (has_id (holding_id h) y) eqn:Hy'; [|reflexivity].
    exfalso. apply Hnin. apply has_id_true in Hy'. rewrite <- Hy'.
    apply list_elem_of_In, in_map, Hy.
  - apply IH, Hnd.
Qed.

Lemma ids_nodup_same_id (hs : list (holding R)) (h t : holding R) :
  ids_nodup hs -> In h hs -> In t hs -> holding_id h = holding_id t -> h = t.
Proof.
  unfold ids_nodup. induction hs as [|a hs IH]; simpl; [tauto|].
  intros Hnd. apply NoDup_cons in Hnd as [Hnin Hnd].
  intros [<-|Hh] [<-|Ht] Hid; auto.
  - exfalso. apply Hnin. rewrite Hid. apply list_elem_of_In, in_map, Ht.
  - exfalso. apply Hnin. rewrite <- Hid. apply list_elem_of_In, in_map, Hh.
Qed.

Lemma is_usd_set_amount (h : holding R) (a : R) : is_usd (set_amount h a) = is_usd h.
Proof. reflexivity. Qed.

Lemma has_id_set_amount (x : string) (h : holding R) (a : R) :
  has_id x (set_amount h a) = has_id x h.
Proof. reflexivity. Qed.

Lemma update_first_usd_count (p : holding R -> bool) (f : holding R -> holding R) hs :
  (forall h, is_usd (f h) = is_usd h) ->
  length (List.filter is_usd (update_first p f hs)) = length (List.filter is_usd hs).
Proof.
  intros Hf. induction hs as [|h hs IH]; simpl; [reflexivity|].
  destruct (p h); simpl; rewrite ?Hf; destruct (is_usd h); simpl; rewrite ?IH; reflexivity.
Qed.

Lemma find_of_count (p : holding R -> bool) hs :
  length (List.filter p hs) = 1%nat -> exists x, List.find p hs = Some x.
Proof.
  induction hs as [|h hs IH]; simpl; [discriminate|].
  destruct (p h); eauto.
Qed.

(** The bookkeeping of a successful SELL, element by element. *)
Lemma sell_books (hs : list (holding R)) (hid : string) (rem proceeds : R) :
  (forall h, In h hs -> has_id hid h = true -> is_usd h = false) ->
  (if n_leb rem n_eps
   then List.filter (fun h => negb (has_id hid h))
          (map_if is_usd (fun h => set_amount h (n_add (amount h) proceeds))
             (map_if (has_id hid) (fun h => set_amount h rem) hs))
   else map_if is_usd (fun h => set_amount h (n_add (amount h) proceeds))
          (map_if (has_id hid) (fun h => set_amount h rem) hs))
  = omap (sell_frame hid rem proceeds) hs.
Proof.
  intros Hbtc. unfold map_if, sell_frame.
  destruct (n_leb rem n_eps) eqn:Hr;
  induction hs as [|h hs IH]; try reflexivity;
  specialize (IH (fun x Hx => Hbtc x (or_intror Hx)));
  cbn [map List.filter omap list_omap];
  (destruct (has_id hid h) eqn:Hh;
   [ rewrite is_usd_set_amount, (Hbtc h (or_introl eq_refl) Hh)
   | destruct (is_usd h) eqn:Hu ]);
  rewrite ?has_id_set_amount, ?Hh; cbn [negb]; rewrite ?IH; reflexivity.
Qed.

(** C9 (frame of order application): a successful [_apply_buy] subtracts
    exactly [amount * execution_price] from the USD holding, leaves every
    other holding as it was and appends one BTC holding carrying the
    order's [stop_loss] and [take_profit]; a successful [_apply_sell]
    changes only the target's amount (removing it at [<= 1e-12]) and adds
    exactly [amount * execution_price] to USD, keeping every other field;
    a failing call of either leaves the ledger unchanged. The book is
    assumed to hold exactly one USD holding (and, for a successful SELL,
    distinct ids), as every reachable book does. Stated for any
    arithmetic, so for Python floats as well. *)
Theorem apply_order_frame :
  (forall (L L' : ledger R) (o : buy_order) (p : R),
     one_usd (holdings L) -> apply_buy o p L = (inr tt, L') ->
     holdings L' = (map (buy_frame (n_mul (b_amount o) p)) (holdings L)
                    ++ [new_btc_holding (next_id L) o])%list /\
     next_id L' = S (next_id L)) /\
  (forall (L L' : ledger R) (o : buy_order) (p : R) (e : string),
     apply_buy o p L = (inl e, L') -> L' = L) /\
  (forall (L L' : ledger R) (o : sell_order) (p : R),
     wf_book (holdings L) -> apply_sell o p L = (inr tt, L') ->
     exists t, find_holding (s_holding_id o) (holdings L) = Some t /\ asset_of t = BTC /\
       holdings L' = omap (sell_frame (s_holding_id o) (n_sub (amount t) (s_amount o))
                                      (n_mul (s_amount o) p)) (holdings L) /\
       next_id L' = next_id L) /\
  (forall (L L' : ledger R) (o : sell_order) (p : R) (e : string),
     one_usd (holdings L) -> apply_sell o p L = (inl e, L') -> L' = L).
Proof.
  split; [|split; [|split]].
  - intros L L' o p Hone. unfold apply_buy.
    destruct (n_leb (b_amount o) n_zero); [discriminate|].
    destruct (get_usd_holding (holdings L)) as [u|]; [|discriminate].
    destruct (n_ltb _ _); [discriminate|].
    intros H. injection H as <-. simpl. split; [|reflexivity].
    rewrite update_first_unique by (unfold one_usd in Hone; lia). reflexivity.
  - intros L L' o p e. unfold apply_buy.
    destruct (n_leb (b_amount o) n_zero); [congruence|].
    destruct (get_usd_holding (holdings L)) as [u|]; [|congruence].
    destruct (n_ltb _ _); congruence.
  - intros L L' o p [Hone Hnd]. unfold apply_sell.
    destruct (n_leb (s_amount o) n_zero); [discriminate|].
    destruct (String.eqb (s_holding_id o) USD_HOLDING_ID); [discriminate|].
    destruct (find_holding (s_holding_id o) (holdings L)) as [t|] eqn:Ht; [|discriminate].
    destruct (is_usd t) eqn:Hut; [discriminate|].
    destruct (n_ltb _ _); [discriminate|].
    rewrite (update_first_unique (has_id (s_holding_id o)))
      by (apply ids_nodup_filter_has_id, Hnd).
    set (hs1 := map_if (has_id (s_holding_id o)) _ (holdings L)).
    assert (Hone1 : length (List.filter is_usd hs1) = 1%nat).
    { unfold hs1. rewrite <- (update_first_unique (has_id (s_holding_id o)))
        by (apply ids_nodup_filter_has_id, Hnd).
      rewrite update_first_usd_count; [exact Hone|reflexivity]. }
    destruct (find_of_count _ _ Hone1) as [u Hu]. unfold get_usd_holding. rewrite Hu.
    intros H. injection H as <-. exists t.
    unfold find_holding in Ht. apply List.find_some in Ht as [Htin Htid].
    split; [unfold find_holding; reflexivity|]. 
    split; [unfold is_usd in Hut; destruct (asset_of t); congruence|].
    split; [|reflexivity]. simpl.
    rewrite update_first_unique by lia.
    apply has_id_true in Htid. rewrite Htid. apply sell_books.
    intros h Hh Hid. apply has_id_true in Hid.
    rewrite (ids_nodup_same_id (holdings L) h t Hnd Hh Htin ltac:(congruence)). exact Hut.
  - intros L L' o p e Hone. unfold apply_sell.
    destruct (n_leb (s_amount o) n_zero); [congruence|].
    destruct (String.eqb (s_holding_id o) USD_HOLDING_ID); [congruence|].
    destruct (find_holding (s_holding_id o) (holdings L)) as [t|]; [|congruence].
    destruct (is_usd t); [congruence|].
    destruct (n_ltb _ _); [congruence|].
    assert (Hone1 : length (List.filter is_usd (update_first (has_id (s_holding_id o))
              (fun h => set_amount h (n_sub (amount t) (s_amount o))) (holdings L))) = 1%nat).
    { rewrite update_first_usd_count; [exact Hone|reflexivity]. }
    destruct (find_of_count _ _ Hone1) as [u Hu]. unfold get_usd_holding. rewrite Hu.
    discriminate.
Qed.

(** The successful path of [_apply_sell]. *)
Lemma apply_sell_ok (L : ledger R) (o : sell_order) (p : R) (t : holding R) :
  wf_book (holdings L) ->
  n_leb (s_amount o) n_zero = false ->
  String.eqb (s_holding_id o) USD_HOLDING_ID = false ->
  find_holding (s_holding_id o) (holdings L) = Some t ->
  is_usd t = false ->
  n_ltb (n_add (amount t) n_eps) (s_amount o) = false ->
  apply_sell o p L
  = (inr tt, set_holdings L (omap (sell_frame (s_holding_id o) (n_sub (amount t) (s_amount o))
                                              (n_mul (s_amount o) p)) (holdings L))).
Proof.
  intros [Hone Hnd] H1 H2 Ht Hut H3. unfold apply_sell. rewrite H1, H2, Ht, Hut, H3.
  rewrite (update_first_unique (has_id (s_holding_id o)))
    by (apply ids_nodup_filter_has_id, Hnd).
  set (hs1 := map_if (has_id (s_holding_id o)) _ (holdings L)).
  assert (Hone1 : length (List.filter is_usd hs1) = 1%nat).
  { unfold hs1. rewrite <- (update_first_unique (has_id (s_holding_id o)))
      by (apply ids_nodup_filter_has_id, Hnd).
    rewrite update_first_usd_count; [exact Hone|reflexivity]. }
  destruct (find_of_count _ _ Hone1) as [u Hu]. unfold get_usd_holding. rewrite Hu.
  unfold find_holding in Ht. apply List.find_some in Ht as [Htin Htid].
  rewrite update_first_unique by lia.
  apply has_id_true in Htid. rewrite Htid. f_equal. f_equal. apply sell_books.
  intros h Hh Hid. apply has_id_true in Hid.
  rewrite (ids_nodup_same_id (holdings L) h t Hnd Hh Htin ltac:(congruence)). exact Hut.
Qed.

Lemma find_none_intro (p : holding R -> bool) hs :
  (forall x, In x hs -> p x = false) -> List.find p hs = None.
Proof.
  induction hs as [|h hs IH]; simpl; intros Hall; [reflexivity|].
  rewrite (Hall h (or_introl eq_refl)). apply IH. intros x Hx. apply Hall. right. exact Hx.
Qed.

Lemma find_holding_in (hs : list (holding R)) (g : holding R) :
  ids_nodup hs -> In g hs -> find_holding (holding_id g) hs = Some g.
Proof.
  unfold find_holding. intros Hnd Hg.
  assert (Hsame : forall h, In h hs -> holding_id h = holding_id g -> h = g)
    by (intros h Hh Hid; exact (ids_nodup_same_id hs h g Hnd Hh Hg Hid)).
  clear Hnd. induction hs as [|h hs IH]; [destruct Hg|].
  simpl. destruct (has_id (holding_id g) h) eqn:Hh.
  - apply has_id_true in Hh. rewrite (Hsame h (or_introl eq_refl) Hh). reflexivity.
  - destruct Hg as [<-|Hg]; [unfold has_id in Hh; rewrite String.eqb_refl in Hh; discriminate|].
    apply IH; [exact Hg|]. intros x Hx. apply Hsame. right. exact Hx.
Qed.

Lemma ids_nodup_omap (f : holding R -> option (holding R)) hs :
  (forall h h', f h = Some h' -> holding_id h' = holding_id h) ->
  ids_nodup hs -> ids_nodup (omap f hs).
Proof.
  unfold ids_nodup. intros Hf. induction hs as [|h hs IH]; simpl; [tauto|].
  intros Hnd. apply NoDup_cons in Hnd as [Hnin Hnd].
  cbn [omap list_omap]. destruct (f h) as [h'|] eqn:Hh; [|apply IH, Hnd].
  simpl. apply NoDup_cons. split; [|apply IH, Hnd].
  rewrite (Hf _ _ Hh). intros Hin. apply Hnin.
  apply list_elem_of_In in Hin. apply in_map_iff in Hin as [x [Hx Hxin]].
  apply list_elem_of_In in Hxin. apply list_elem_of_omap in Hxin as [y [Hy Hfy]].
  rewrite <- Hx, (Hf _ _ Hfy). apply list_elem_of_In, in_map. apply list_elem_of_In, Hy.
Qed.

Lemma In_omap (f : holding R -> option (holding R)) hs h :
  In h hs -> f h = Some h -> In h (omap f hs).
Proof.
  intros Hin Hf. apply list_elem_of_In, list_elem_of_omap. exists h.
  split; [apply list_elem_of_In, Hin|exact Hf].
Qed.

Lemma sell_frame_usd_count (hid : string) (rem proceeds : R) hs :
  (forall h, In h hs -> has_id hid h = true -> is_usd h = false) ->
  length (List.filter is_usd (omap (sell_frame hid rem proceeds) hs))
  = length (List.filter is_usd hs).
Proof.
  intros Hbtc. unfold sell_frame. induction hs as [|h hs IH]; [reflexivity|].
  specialize (IH (fun x Hx => Hbtc x (or_intror Hx))).
  cbn [omap list_omap List.filter].
  destruct (has_id hid h) eqn:Hh.
  - rewrite (Hbtc h (or_introl eq_refl) Hh).
    destruct (n_leb rem n_eps); cbn [List.filter]; rewrite ?is_usd_set_amount,
      ?(Hbtc h (or_introl eq_refl) Hh); exact IH.
  - destruct (is_usd h) eqn:Hu; cbn [List.filter]; rewrite ?is_usd_set_amount, Hu;
      cbn [length]; rewrite IH; reflexivity.
Qed.

Lemma set_amount_same (h : holding R) : set_amount h (amount h) = h.
Proof. destruct h; reflexivity. Qed.

Lemma closed_book_nil (low high : R) hs : closed_book low high [] hs = hs.
Proof.
  unfold closed_book, closes, credited. induction hs as [|h hs IH]; [reflexivity|].
  cbn [omap list_omap existsb fold_left] in *. rewrite IH.
  destruct (is_usd h); [rewrite set_amount_same|]; reflexivity.
Qed.

Lemma closed_book_skip (low high : R) (g : holding R) rest hs :
  close_price low high g = None ->
  closed_book low high (g :: rest) hs = closed_book low high rest hs.
Proof.
  intros Hg. unfold closed_book, closes, credited.
  apply list_omap_ext, Forall_Forall2_diag, Forall_forall. intros h _.
  cbn [existsb fold_left]. rewrite Hg, andb_false_r. reflexivity.
Qed.

Lemma omap_omap (f g : holding R -> option (holding R)) (hs : list (holding R)) :
  omap f (omap g hs) = omap (fun h => match g h with Some y => f y | None => None end) hs.
Proof.
  induction hs as [|h hs IH]; [reflexivity|].
  cbn [omap list_omap] in *. destruct (g h); [|exact IH].
  cbn [omap list_omap]. rewrite IH. reflexivity.
Qed.

Lemma closed_book_sale (low high : R) (g : holding R) (p : R) rest hs :
  close_price low high g = Some p ->
  n_leb (n_sub (amount g) (amount g)) n_eps = true ->
  (forall h, In h hs -> has_id (holding_id g) h = true -> is_usd h = false) ->
  closed_book low high rest
    (omap (sell_frame (holding_id g) (n_sub (amount g) (amount g)) (n_mul (amount g) p)) hs)
  = closed_book low high (g :: rest) hs.
Proof.
  intros Hg Hrem Hbtc. unfold closed_book. rewrite omap_omap.
  apply list_omap_ext, Forall_Forall2_diag, Forall_forall. intros h Hh.
  apply list_elem_of_In in Hh. unfold sell_frame, closes, credited.
  cbn [existsb fold_left]. rewrite Hg.
  destruct (has_id (holding_id g) h) eqn:Hh'.
  - rewrite Hrem, (Hbtc h Hh Hh'). reflexivity.
  - destruct (is_usd h) eqn:Hu.
    + rewrite is_usd_set_amount, Hu. reflexivity.
    + rewrite Hu. reflexivity.
Qed.

(** The body of the loop for a holding still in the book closes it at
    [close_price]. *)
Lemma auto_close_step (low high : R) (g : holding R) rest (L : ledger R) (gh : holding R) :
  find_holding (holding_id g) (holdings L) = Some gh ->
  auto_close_loop low high (g :: rest) L
  = match close_price low high g with
    | Some p => bind (apply_sell (sell_all g) p) (fun _ => auto_close_loop low high rest) L
    | None => auto_close_loop low high rest L
    end.
Proof.
  intros Hf. cbn [auto_close_loop]. rewrite Hf.
  unfold close_price, sl_fires, tp_fires.
  destruct (stop_loss g) as [s|]; [destruct (n_leb low s)|];
    destruct (take_profit g) as [t|]; try destruct (n_leb t high); reflexivity.
Qed.

Lemma auto_close_loop_spec (low high : R) : forall rest (L : ledger R),
  wf_book (holdings L) ->
  NoDup (map holding_id rest) ->
  (forall g, In g rest -> In g (holdings L) /\ is_btc g = true /\
                          holding_id g <> USD_HOLDING_ID /\ full_sale_ok g = true) ->
  auto_close_loop low high rest L
  = (inr tt, {| holdings := closed_book low high rest (holdings L); next_id := next_id L |}).
Proof.
  induction rest as [|g rest IH]; intros L Hwf Hnd Hrest.
  - rewrite closed_book_nil. destruct L. reflexivity.
  - apply NoDup_cons in Hnd as [Hnin Hnd].
    destruct (Hrest g (or_introl eq_refl)) as (Hg & Hgb & Hgid & Hok).
    assert (Hrest' : forall x, In x rest -> In x (holdings L) /\ is_btc x = true /\
                          holding_id x <> USD_HOLDING_ID /\ full_sale_ok x = true)
      by (intros x Hx; apply Hrest; right; exact Hx).
    assert (Hfind := find_holding_in (holdings L) g (proj2 Hwf) Hg).
    assert (Hbtc : forall h, In h (holdings L) -> has_id (holding_id g) h = true -> is_usd h = false).
    { intros h Hh Hid. apply has_id_true in Hid.
      rewrite (ids_nodup_same_id (holdings L) h g (proj2 Hwf) Hh Hg Hid).
      unfold is_btc in Hgb. destruct (is_usd g); [discriminate|reflexivity]. }
    rewrite (auto_close_step low high g rest L g Hfind).
    destruct (close_price low high g) as [p|] eqn:Hcp.
    + unfold full_sale_ok in Hok. apply andb_prop in Hok as [Hok Hrem].
      apply andb_prop in Hok as [Hpos Hfit]. apply negb_true_iff in Hpos, Hfit.
      assert (Hus : is_usd g = false)
        by (unfold is_btc in Hgb; destruct (is_usd g); [discriminate|reflexivity]).
      unfold bind. rewrite (apply_sell_ok L (sell_all g) p g Hwf Hpos
        ltac:(apply String.eqb_neq; exact Hgid) Hfind Hus Hfit).
      cbn [sell_all s_holding_id s_amount].
      rewrite IH.
      * unfold set_holdings. cbn [holdings next_id].
        rewrite (closed_book_sale low high g p rest (holdings L) Hcp Hrem Hbtc). reflexivity.
      * unfold set_holdings. cbn [holdings]. split.
        -- unfold one_usd. rewrite sell_frame_usd_count; [exact (proj1 Hwf)|exact Hbtc].
        -- apply ids_nodup_omap; [|exact (proj2 Hwf)].
           intros h h'. unfold sell_frame.
           destruct (has_id _ h); [destruct (n_leb (n_sub (amount g) (amount g)) n_eps)|destruct (is_usd h)];
             intros E; inversion E; reflexivity.
      * exact Hnd.
      * intros x Hx. destruct (Hrest' x Hx) as (Hx1 & Hx2 & Hx3 & Hx4).
        split; [|tauto]. unfold set_holdings. cbn [holdings].
        apply In_omap; [exact Hx1|]. unfold sell_frame.
        destruct (has_id (holding_id g) x) eqn:Hxg.
        { exfalso. apply Hnin. apply has_id_true in Hxg. rewrite <- Hxg.
          apply list_elem_of_In, in_map, Hx. }
        unfold is_btc in Hx2. destruct (is_usd x); [discriminate|reflexivity].
    + rewrite (closed_book_skip low high g rest _ Hcp). apply IH; assumption.
Qed.

Lemma ids_nodup_filter (p : holding R -> bool) hs :
  NoDup (map holding_id hs) -> NoDup (map holding_id (List.filter p hs)).
Proof.
  induction hs as [|h hs IH]; simpl; intros Hnd; [exact Hnd|].
  apply NoDup_cons in Hnd as [Hnin Hnd].
  destruct (p h); simpl; [|apply IH, Hnd].
  apply NoDup_cons. split; [|apply IH, Hnd].
  intros Hin. apply Hnin. apply list_elem_of_In in Hin. apply list_elem_of_In.
  apply in_map_iff in Hin as [x [Hx Hxin]]. apply List.filter_In in Hxin as [Hxin _].
  rewrite <- Hx. apply in_map, Hxin.
Qed.

(** C5 (SL before TP): on a well-formed book (one USD holding, distinct
    ids, no BTC holding named ["USD"]) whose open BTC holdings can each be
    sold in full, [_auto_close_on_thresholds] succeeds and yields the book
    in which every open BTC holding that closes is gone and USD has been
    credited [amount * close_price] for each of them in order, where
    [close_price] is the stop-loss whenever it is set and reached and the
    take-profit only otherwise. In particular a holding whose stop-loss
    [s >= low] and take-profit [t <= high] both trigger is closed at [s],
    and no holding with its id is left. *)
Theorem auto_close_sl_before_tp (L : ledger R) (low high : R) :
  wf_book (holdings L) -> btc_ids_ok (holdings L) = true ->
  let snap := List.filter (fun h => is_btc h && n_ltb n_eps (amount h)) (holdings L) in
  forallb full_sale_ok snap = true ->
  auto_close_on_thresholds low high L
  = (inr tt, {| holdings := closed_book low high snap (holdings L); next_id := next_id L |}) /\
  (forall h s t, In h snap -> stop_loss h = Some s -> take_profit h = Some t ->
     n_leb low s = true -> n_leb t high = true ->
     close_price low high h = Some s /\
     find_holding (holding_id h) (closed_book low high snap (holdings L)) = None).
Proof.
  intros Hwf Hids snap Hok. split.
  - unfold auto_close_on_thresholds. fold snap. apply auto_close_loop_spec.
    + exact Hwf.
    + apply ids_nodup_filter, (proj2 Hwf).
    + intros g Hg. rewrite forallb_forall in Hok.
      pose proof (Hok g Hg) as Hgok. unfold snap in Hg.
      apply List.filter_In in Hg as [Hg Hp]. apply andb_prop in Hp as [Hb _].
      unfold btc_ids_ok in Hids. rewrite forallb_forall in Hids.
      pose proof (Hids g Hg) as Hgid. rewrite Hb in Hgid. cbn [andb negb] in Hgid.
      apply negb_true_iff, String.eqb_neq in Hgid.
      repeat split; assumption.
  - intros h s t Hh Hs Ht Hlow Hhigh.
    assert (Hcp : close_price low high h = Some s)
      by (unfold close_price; rewrite Hs, Hlow; reflexivity).
    split; [exact Hcp|].
    pose proof Hh as Hhs.
    unfold snap in Hh. apply List.filter_In in Hh as [Hin Hp].
    apply andb_prop in Hp as [Hb _].
    apply find_none_intro. intros x Hx.
    apply list_elem_of_In, list_elem_of_omap in Hx as [y [Hy Hfy]].
    apply list_elem_of_In in Hy.
    destruct (has_id (holding_id h) x) eqn:Hxh; [|reflexivity]. exfalso.
    destruct (is_usd y) eqn:Huy.
    + injection Hfy as <-. apply has_id_true in Hxh. cbn [set_amount holding_id] in Hxh.
      rewrite (ids_nodup_same_id _ y h (proj2 Hwf) Hy Hin Hxh) in Huy.
      unfold is_btc in Hb. rewrite Huy in Hb. discriminate.
    + destruct (closes low high snap y) eqn:Hcl; [discriminate|].
      injection Hfy as ->.
      assert (Hc : closes low high snap x = true).
      { unfold closes. apply existsb_exists. exists h. split; [exact Hhs|].
        rewrite Hxh, Hcp. reflexivity. }
      congruence.
Qed.

End Generic.

Local Open Scope Q_scope.

Lemma apply_order_frame_witness :
  let L := reset_portfolio (R:=Q) in
  let o := {| b_amount := 1; b_stop_loss := None; b_take_profit := Some 200 |} in
  one_usd (holdings L) /\ apply_buy o 100 L = (inr tt, snd (apply_buy o 100 L)) /\
  holdings (snd (apply_buy o 100 L))
  = (map (buy_frame (n_mul (b_amount o) 100)) (holdings L) ++ [new_btc_holding 1 o])%list.
Proof.
  intros L o.
  assert (H1 : one_usd (holdings L)) by (vm_compute; reflexivity).
  assert (H2 : apply_buy o 100 L = (inr tt, snd (apply_buy o 100 L))) by (vm_compute; reflexivity).
  split; [exact H1|]. split; [exact H2|].
  exact (proj1 (proj1 apply_order_frame L _ o 100 H1 H2)).
Defined.

Lemma auto_close_sl_before_tp_witness :
  let h : holding Q := {| holding_id := "H1"; asset_of := BTC; amount := 1;
                          stop_loss := Some 90; take_profit := Some 110 |} in
  let L : ledger Q :=
    {| holdings := [{| holding_id := "USD"; asset_of := USD; amount := 1000;
                       stop_loss := None; take_profit := None |}; h];
       next_id := 2 |} in
  let snap := List.filter (fun g => is_btc g && n_ltb n_eps (amount g)) (holdings L) in
  wf_book (holdings L) /\ btc_ids_ok (holdings L) = true /\ forallb full_sale_ok snap = true /\
  auto_close_on_thresholds 80 120 L
  = (inr tt, {| holdings := closed_book 80 120 snap (holdings L); next_id := 2 |}) /\
  close_price 80 120 h = Some 90 /\
  find_holding "H1" (closed_book 80 120 snap (holdings L)) = None.
Proof.
  intros h L snap.
  assert (H1 : wf_book (holdings L)).
  { unfold wf_book. split; [vm_compute; reflexivity|].
    apply (bool_decide_unpack _). vm_compute. reflexivity. }
  assert (H2 : btc_ids_ok (holdings L) = true) by (vm_compute; reflexivity).
  assert (H3 : forallb full_sale_ok snap = true) by (vm_compute; reflexivity).
  destruct (auto_close_sl_before_tp L 80 120 H1 H2 H3) as [Hrun Hsl].
  destruct (Hsl h 90 110 ltac:(apply List.filter_In; split; [simpl; right; left; reflexivity|vm_compute; reflexivity]) eq_refl eq_refl
              ltac:(vm_compute; reflexivity) ltac:(vm_compute; reflexivity)) as [Hp Hgone].
  exact (conj H1 (conj H2 (conj H3 (conj Hrun (conj Hp Hgone))))).
Defined.

End LedgerFacts.

Module RoundTripFacts.
Import Backtester Specs LedgerFacts.

Local Open Scope Q_scope.

Lemma find_map_pres (p : holding Q -> bool) (g : holding Q -> holding Q) hs :
  (forall h, p (g h) = p h) -> List.find p (map g hs) = g <$> List.find p hs.
Proof.
  intros Hg. induction hs as [|h hs IH]; [reflexivity|].
  cbn [map List.find]. rewrite Hg. destruct (p h); [reflexivity|exact IH].
Qed.

Lemma count_map_pres (p : holding Q -> bool) (g : holding Q -> holding Q) hs :
  (forall h, p (g h) = p h) -> length (List.filter p (map g hs)) = length (List.filter p hs).
Proof.
  intros Hg. induction hs as [|h hs IH]; [reflexivity|].
  cbn [map List.filter]. rewrite Hg. destruct (p h); cbn [length]; rewrite IH; reflexivity.
Qed.

Lemma find_holding_app_fresh (hid : string) (hs : list (holding Q)) (h : holding Q) :
  find_holding hid hs = None -> has_id hid h = true ->
  find_holding hid (hs ++ [h])%list = Some h.
Proof.
  unfold find_holding. intros Hn Hh. induction hs as [|x hs IH]; cbn [app List.find].
  - rewrite Hh. reflexivity.
  - cbn [List.find] in Hn. destruct (has_id hid x); [discriminate|exact (IH Hn)].
Qed.

Lemma find_holding_none_map (hid : string) (g : holding Q -> holding Q) hs :
  (forall h, holding_id (g h) = holding_id h) ->
  find_holding hid hs = None -> find_holding hid (map g hs) = None.
Proof.
  unfold find_holding. intros Hg Hn. rewrite find_map_pres.
  - rewrite Hn. reflexivity.
  - intros h. unfold has_id. rewrite Hg. reflexivity.
Qed.

Lemma fresh_has_id (hid : string) (hs : list (holding Q)) (h : holding Q) :
  find_holding hid hs = None -> In h hs -> has_id hid h = false.
Proof. unfold find_holding. intros Hn Hin. exact (List.find_none _ _ Hn h Hin). Qed.

Lemma omap_map_pres (f : holding Q -> option (holding Q)) (g k : holding Q -> holding Q) hs :
  (forall h, In h hs -> f (g h) = Some (k h)) -> omap f (map g hs) = map k hs.
Proof.
  intros Hf. induction hs as [|h hs IH]; [reflexivity|].
  cbn [map omap list_omap]. rewrite (Hf h (or_introl eq_refl)).
  cbn [omap list_omap]. rewrite IH; [reflexivity|]. intros x Hx. apply Hf. right. exact Hx.
Qed.

Lemma holding_id_of_not_usd (n : nat) : String.eqb (holding_id_of n) USD_HOLDING_ID = false.
Proof. reflexivity. Qed.

(** C7 (amended, exact arithmetic): on a well-formed book whose next id
    is not in use and whose USD amount is [u], a BUY of [a > 0] at [p]
    with [a * p <= u + 1e-12] followed by a SELL of [a] of the holding it
    created, at the same [p], succeeds; it leaves every holding as it was
    except USD, whose amount becomes [(u - a * p) + a * p], equal to [u],
    and the BTC holding is gone. *)
Theorem round_trip_conserves_usd (L : ledger Q) (u a p : Q)
    (sl tp : option Q) :
  wf_book (holdings L) ->
  find_holding (holding_id_of (next_id L)) (holdings L) = None ->
  usd_amount L = Some u ->
  0 < a -> a * p <= u + n_eps ->
  let r := bind (apply_buy {| b_amount := a; b_stop_loss := sl; b_take_profit := tp |} p)
                (fun _ => apply_sell {| s_holding_id := holding_id_of (next_id L);
                                        s_amount := a |} p) L in
  fst r = inr tt /\
  holdings (snd r)
  = map (fun h => if is_usd h then set_amount h (amount h - a * p + a * p) else h) (holdings L) /\
  (exists u', usd_amount (snd r) = Some u' /\ u' == u) /\
  find_holding (holding_id_of (next_id L)) (holdings (snd r)) = None.
Proof.
  intros [Hone Hnd] Hfresh Hu Ha Hfit r.
  unfold usd_amount, get_usd_holding in Hu.
  destruct (List.find is_usd (holdings L)) as [usd|] eqn:Husd; [|discriminate].
  injection Hu as Hu.
  set (hid := holding_id_of (next_id L)) in *.
  set (nh := {| holding_id := hid; asset_of := BTC; amount := a;
                stop_loss := sl; take_profit := tp |} : holding Q).
  set (g := fun h : holding Q => if is_usd h then set_amount h (amount h - a * p) else h).
  set (hs1 := map g (holdings L)).
  assert (Hg_id : forall h, holding_id (g h) = holding_id h)
    by (intros h; unfold g; destruct (is_usd h); reflexivity).
  assert (Hg_usd : forall h, is_usd (g h) = is_usd h)
    by (intros h; unfold g; destruct (is_usd h) eqn:E; [rewrite is_usd_set_amount|]; exact E).
  assert (Hpos : n_leb a n_zero = false).
  { apply not_true_is_false. cbn. rewrite Qle_bool_iff. intros H. lra. }
  assert (Hbuy : apply_buy {| b_amount := a; b_stop_loss := sl; b_take_profit := tp |} p L
                 = (inr tt, {| holdings := (hs1 ++ [nh])%list; next_id := S (next_id L) |})).
  { unfold apply_buy. cbn [b_amount b_stop_loss b_take_profit]. rewrite Hpos.
    unfold get_usd_holding. rewrite Husd.
    assert (Hc : n_ltb (n_add (amount usd) n_eps) (n_mul a p) = false).
    { cbn. rewrite Hu. apply negb_false_iff, Qle_bool_iff. exact Hfit. }
    rewrite Hc. rewrite update_first_unique by (unfold one_usd in Hone; lia).
    reflexivity. }
  set (L1 := {| holdings := (hs1 ++ [nh])%list; next_id := S (next_id L) |}).
  assert (Hwf1 : wf_book (holdings L1)).
  { split.
    - unfold one_usd. cbn [holdings L1]. rewrite List.filter_app, length_app.
      unfold hs1. rewrite count_map_pres by exact Hg_usd. rewrite Hone. reflexivity.
    - unfold ids_nodup. cbn [holdings L1]. rewrite map_app.
      assert (Hm : map holding_id hs1 = map holding_id (holdings L)).
      { unfold hs1. rewrite map_map. apply map_ext. exact Hg_id. }
      rewrite Hm. apply NoDup_app. split; [exact Hnd|]. split.
      + intros x Hx Hx'. apply list_elem_of_singleton in Hx'. subst x.
        apply list_elem_of_In, in_map_iff in Hx as [y [Hy Hyin]].
        assert (Hf := fresh_has_id hid _ y Hfresh Hyin). unfold has_id in Hf.
        rewrite Hy, String.eqb_refl in Hf. discriminate.
      + apply NoDup_singleton. }
  assert (Hnh : has_id hid nh = true) by (unfold has_id; apply String.eqb_refl).
  assert (Hfind : find_holding hid (holdings L1) = Some nh).
  { apply find_holding_app_fresh; [|exact Hnh].
    apply find_holding_none_map; [exact Hg_id|exact Hfresh]. }
  assert (Hsell := apply_sell_ok L1 {| s_holding_id := hid; s_amount := a |} p nh Hwf1 Hpos
                     (holding_id_of_not_usd _) Hfind eq_refl).
  cbn [s_holding_id s_amount amount nh] in Hsell.
  assert (Hfit2 : n_ltb (n_add a n_eps) a = false).
  { cbn. apply negb_false_iff, Qle_bool_iff. unfold n_eps. cbn. lra. }
  specialize (Hsell Hfit2).
  assert (Hrem : n_leb (n_sub a a) n_eps = true).
  { cbn. apply Qle_bool_iff. lra. }
  set (k := fun h : holding Q => if is_usd h then set_amount h (amount h - a * p + a * p) else h).
  assert (Hhs : omap (sell_frame hid (n_sub a a) (n_mul a p)) (holdings L1) = map k (holdings L)).
  { cbn [holdings L1]. rewrite omap_app.
    assert (Hlast : omap (sell_frame hid (n_sub a a) (n_mul a p)) [nh] = []).
    { cbn [omap list_omap]. unfold sell_frame. rewrite Hnh, Hrem. reflexivity. }
    rewrite Hlast, app_nil_r. unfold hs1. apply omap_map_pres.
    intros h Hin. unfold sell_frame.
    assert (Hh : has_id hid (g h) = false).
    { unfold has_id. rewrite Hg_id. exact (fresh_has_id hid _ h Hfresh Hin). }
    rewrite Hh, Hg_usd. unfold g, k. destruct (is_usd h); reflexivity. }
  unfold r, bind. rewrite Hbuy. fold L1. rewrite Hsell, Hhs.
  cbn [fst snd set_holdings holdings].
  split; [reflexivity|]. split; [reflexivity|]. split.
  - exists (u - a * p + a * p). split; [|ring].
    unfold usd_amount, get_usd_holding, set_holdings. cbn [holdings].
    rewrite find_map_pres, Husd.
    + cbn. unfold k. rewrite (proj2 (List.find_some _ _ Husd)). cbn. rewrite Hu. reflexivity.
    + intros h. unfold k. destruct (is_usd h) eqn:E; [rewrite is_usd_set_amount|]; exact E.
  - unfold set_holdings. cbn [holdings]. apply find_holding_none_map; [|exact Hfresh].
    intros h. unfold k. destruct (is_usd h); reflexivity.
Qed.

Lemma round_trip_conserves_usd_witness :
  let L := reset_portfolio (R:=Q) in
  let r := bind (apply_buy {| b_amount := 1 # 10; b_stop_loss := Some 6000;
                              b_take_profit := None |} 6341)
                (fun _ => apply_sell {| s_holding_id := holding_id_of (next_id L);
                                        s_amount := 1 # 10 |} 6341) L in
  fst r = inr tt /\ (exists u', usd_amount (snd r) = Some u' /\ u' == 10000) /\
  find_holding "H1" (holdings (snd r)) = None.
Proof.
  intros L r.
  assert (H1 : wf_book (holdings L)).
  { unfold wf_book. split; [vm_compute; reflexivity|].
    apply (bool_decide_unpack _). vm_compute. reflexivity. }
  assert (H2 : find_holding (holding_id_of (next_id L)) (holdings L) = None)
    by (vm_compute; reflexivity).
  assert (H3 : usd_amount L = Some 10000) by (vm_compute; reflexivity).
  assert (H4 : 0 < 1 # 10) by (vm_compute; reflexivity).
  assert (H5 : (1 # 10) * 6341 <= 10000 + n_eps) by (apply Qle_bool_iff; vm_compute; reflexivity).
  destruct (round_trip_conserves_usd L 10000 (1 # 10) 6341 (Some 6000) None H1 H2 H3 H4 H5)
    as (Hok & _ & Hu & Hgone).
  exact (conj Hok (conj Hu Hgone)).
Defined.

End RoundTripFacts.

Module RoundTripFloat.
Import Backtester Specs.

(** C7 (counterexample, binary64): after a first round trip the USD
    amount is [20489.84]; a BUY of [0.11] at [27797] and the SELL of the
    new holding at the same price then succeed and remove it, but leave
    USD at [20489.839999999997], which differs from [20489.84] by more
    than [1e-12]: the rounding error grows with the amounts and is not
    bounded by the absolute tolerance. *)
Lemma round_trip_float_drift :
  let L := snd (bind (apply_buy {| b_amount := 0.92%float; b_stop_loss := None;
                                   b_take_profit := None |} 6341%float)
                     (fun _ => apply_sell {| s_holding_id := "H1"; s_amount := 0.92%float |}
                                          17743%float)
                     (reset_portfolio (R:=float))) in
  let r := bind (apply_buy {| b_amount := 0.11%float; b_stop_loss := None;
                              b_take_profit := None |} 27797%float)
                (fun _ => apply_sell {| s_holding_id := holding_id_of (next_id L);
                                        s_amount := 0.11%float |} 27797%float) L in
  wf_book (holdings L) /\
  usd_amount L = Some 20489.84%float /\
  PrimFloat.leb (0.11 * 27797)%float (20489.84 + 1e-12)%float = true /\
  fst r = inr tt /\
  usd_amount (snd r) = Some 20489.839999999997%float /\
  PrimFloat.ltb 1e-12%float (PrimFloat.abs (20489.839999999997 - 20489.84)%float) = true /\
  find_holding (holding_id_of (next_id L)) (holdings (snd r)) = None.
Proof.
  intros L r. split.
  - unfold wf_book. split; [vm_compute; reflexivity|].
    apply (bool_decide_unpack _). vm_compute. reflexivity.
  - repeat split; vm_compute; reflexivity.
Qed.

End RoundTripFloat.

Module InvariantFacts.
Import Backtester Specs LedgerFacts.

Local Open Scope Q_scope.

Lemma holding_id_of_inj (k1 k2 : nat) : holding_id_of k1 = holding_id_of k2 -> k1 = k2.
Proof. unfold holding_id_of. intros H. injection H as H. exact (inj pretty _ _ H). Qed.

Lemma holding_id_of_ne_usd (k : nat) : holding_id_of k <> USD_HOLDING_ID.
Proof. discriminate. Qed.

Lemma StronglySorted_snoc {A} (R : A -> A -> Prop) (l : list A) (x : A) :
  StronglySorted R l -> Forall (fun y => R y x) l -> StronglySorted R (l ++ [x])%list.
Proof.
  induction 1 as [|y l Hs IH Hall]; intros Hx.
  - constructor; constructor.
  - inversion Hx as [|? ? Hyx Hx']; subst. cbn [app]. constructor; [exact (IH Hx')|].
    apply List.Forall_app. split; [exact Hall|]. constructor; [exact Hyx|constructor].
Qed.

Lemma Forall_update_first (P : holding Q -> Prop) (p : holding Q -> bool) f l :
  Forall P l -> (forall x, P x -> P (f x)) -> Forall P (update_first p f l).
Proof.
  intros Hl Hf. induction Hl as [|x l Hx Hl IH]; cbn [update_first]; [constructor|].
  destruct (p x); constructor; auto.
Qed.

Lemma SS_update_first_set_amount (p : holding Q -> bool) (r : Q) l :
  StronglySorted id_before l ->
  StronglySorted id_before (update_first p (fun h => set_amount h r) l).
Proof.
  induction 1 as [|x l Hs IH Hall]; cbn [update_first]; [constructor|].
  destruct (p x); constructor; [exact Hs|exact Hall|exact IH|].
  apply Forall_update_first; [exact Hall|]. intros y Hy. exact Hy.
Qed.

Lemma In_filter_update_first (hid : string) (r : Q) l x :
  In x (List.filter (fun h => negb (has_id hid h))
          (update_first (has_id hid) (fun h => set_amount h r) l)) -> In x l.
Proof.
  induction l as [|h l IH]; cbn [update_first]; [intros []|].
  destruct (has_id hid h) eqn:Hh; cbn [List.filter].
  - rewrite has_id_set_amount, Hh. cbn [negb]. intros Hx.
    right. apply List.filter_In in Hx as [Hx _]. exact Hx.
  - rewrite Hh. cbn [negb]. intros [<-|Hx]; [left; reflexivity|right; exact (IH Hx)].
Qed.

Lemma ids_nodup_sorted (btcs : list (holding Q)) :
  StronglySorted id_before btcs -> NoDup (map holding_id btcs).
Proof.
  induction 1 as [|x l Hs IH Hall]; cbn [map]; [constructor|].
  apply NoDup_cons. split; [|exact IH].
  intros Hin. apply list_elem_of_In, in_map_iff in Hin as [y [Hy Hyin]].
  rewrite List.Forall_forall in Hall. destruct (Hall y Hyin) as (k1 & k2 & H1 & H2 & Hlt).
  rewrite <- Hy, H2 in H1. apply holding_id_of_inj in H1. lia.
Qed.

Lemma ledger_inv_wf (L : ledger Q) : ledger_inv L -> wf_book (holdings L).
Proof.
  intros (u & btcs & Hh & Hid & Ha & _ & Hall & Hs & _). rewrite Hh. split.
  - unfold one_usd. cbn [List.filter]. unfold is_usd at 1. rewrite Ha.
    assert (List.filter is_usd btcs = []) as ->; [|reflexivity].
    apply PriceFacts.filter_all_false. intros b Hb.
    rewrite List.Forall_forall in Hall. destruct (Hall b Hb) as (Hbtc & _).
    unfold is_usd. rewrite Hbtc. reflexivity.
  - unfold ids_nodup. cbn [map]. apply NoDup_cons. split; [|exact (ids_nodup_sorted _ Hs)].
    intros Hin. apply list_elem_of_In, in_map_iff in Hin as [y [Hy Hyin]].
    rewrite List.Forall_forall in Hall. destruct (Hall y Hyin) as (_ & _ & _ & k & Hk & _).
    rewrite Hid, Hk in Hy. exact (holding_id_of_ne_usd k Hy).
Qed.

Lemma buy_inv (L : ledger Q) (o : buy_order) (p : Q) :
  ledger_inv L -> (forall t, b_take_profit o = Some t -> 0 <= t) ->
  ledger_inv (snd (apply_buy o p L)).
Proof.
  intros HL Htp. pose proof HL as (u & btcs & Hh & Hid & Ha & Hu & Hall & Hs & Hn).
  unfold apply_buy. destruct (n_leb (b_amount o) n_zero) eqn:Hpos; [exact HL|].
  unfold get_usd_holding. rewrite Hh. cbn [List.find]. unfold is_usd at 1. rewrite Ha.
  destruct (n_ltb _ _) eqn:Hc; [exact HL|]. cbn [snd holdings next_id].
  cbn [update_first]. unfold is_usd at 1. rewrite Ha.
  apply negb_false_iff, Qle_bool_iff in Hc.
  assert (Hpos' : 0 < b_amount o).
  { apply Qnot_le_lt. intros Hle. apply Qle_bool_iff in Hle. cbn in Hpos. congruence. }
  eexists _, _. split; [reflexivity|].
  split; [exact Hid|]. split; [exact Ha|]. split.
  { cbn [set_amount amount]. cbn in Hc |- *. lra. }
  split.
  { apply List.Forall_app. split.
    - eapply Forall_impl; [exact Hall|]. cbn [next_id].
      intros b (H1 & H2 & H3 & k & Hk & Hb). split; [exact H1|]. split; [exact H2|].
      split; [exact H3|]. exists k. split; [exact Hk|lia].
    - constructor; [|constructor]. cbn [asset_of amount take_profit holding_id next_id].
      split; [reflexivity|]. split; [exact Hpos'|]. split; [exact Htp|].
      exists (next_id L). split; [reflexivity|lia]. }
  split; [|cbn [next_id]; lia].
  apply StronglySorted_snoc; [exact Hs|].
  eapply Forall_impl; [exact Hall|]. intros b (_ & _ & _ & k & Hk & Hb).
  exists k, (next_id L). split; [exact Hk|]. split; [reflexivity|lia].
Qed.

Lemma sell_inv (L : ledger Q) (o : sell_order) (p : Q) :
  ledger_inv L -> 0 <= p -> ledger_inv (snd (apply_sell o p L)).
Proof.
  intros HL Hp. pose proof HL as (u & btcs & Hh & Hid & Ha & Hu & Hall & Hs & Hn).
  assert (Hiu : is_usd u = true) by (unfold is_usd; rewrite Ha; reflexivity).
  unfold apply_sell. destruct (n_leb (s_amount o) n_zero) eqn:Hpos; [exact HL|].
  destruct (String.eqb (s_holding_id o) USD_HOLDING_ID) eqn:Hnu; [exact HL|].
  assert (Hhu : has_id (s_holding_id o) u = false).
  { unfold has_id. rewrite Hid, String.eqb_sym. exact Hnu. }
  unfold find_holding. rewrite Hh. cbn [List.find]. rewrite Hhu.
  destruct (List.find (has_id (s_holding_id o)) btcs) as [t|] eqn:Ht; [|exact HL].
  destruct (is_usd t) eqn:Htu; [exact HL|].
  destruct (n_ltb _ _) eqn:Hc; [exact HL|].
  cbn [update_first]. rewrite Hhu.
  unfold get_usd_holding. cbn [List.find]. rewrite Hiu.
  cbn [update_first]. rewrite Hiu.
  apply List.find_some in Ht as [Htin Htid]. apply has_id_true in Htid.
  assert (Hpos' : 0 < s_amount o).
  { apply Qnot_le_lt. intros Hle. apply Qle_bool_iff in Hle. cbn in Hpos. congruence. }
  assert (Hfu : has_id (holding_id t) (set_amount u (n_add (amount u) (n_mul (s_amount o) p)))
                = false) by (rewrite has_id_set_amount, Htid; exact Hhu).
  assert (Hu' : - n_eps <= amount (set_amount u (n_add (amount u) (n_mul (s_amount o) p)))).
  { cbn [set_amount amount n_add n_mul NumQ].
    assert (0 <= s_amount o * p) by (apply Qmult_le_0_compat; lra). cbn in Hu |- *. lra. }
  set (rem := n_sub (amount t) (s_amount o)).
  set (u' := set_amount u (n_add (amount u) (n_mul (s_amount o) p))).
  destruct (n_leb rem n_eps) eqn:Hrem.
  - cbn [List.filter]. rewrite (Hfu : has_id (holding_id t) u' = false). cbn [negb snd set_holdings holdings next_id].
    rewrite Htid.
    eexists u', _. split; [reflexivity|]. split; [exact Hid|]. split; [exact Ha|].
    split; [exact (Hu' : - n_eps <= amount u')|]. split.
    + apply List.Forall_forall. intros x Hx. apply In_filter_update_first in Hx.
      rewrite List.Forall_forall in Hall. exact (Hall x Hx).
    + split; [|exact Hn]. apply PriceFacts.filter_StronglySorted, SS_update_first_set_amount, Hs.
  - unfold set_holdings. cbn [snd holdings next_id]. try rewrite Hiu.
    eexists u', _. split; [reflexivity|]. split; [exact Hid|]. split; [exact Ha|].
    split; [exact (Hu' : - n_eps <= amount u')|]. split.
    + apply Forall_update_first; [exact Hall|].
      intros x (H1 & H2 & H3 & Hk). split; [exact H1|]. split; [|split; [exact H3|exact Hk]].
      cbn [set_amount amount]. apply Qnot_le_lt. intros Hle.
      assert (Hle' : rem <= n_eps) by (cbn in *; lra).
      apply Qle_bool_iff in Hle'. cbn in Hrem, Hle'. congruence.
    + split; [|exact Hn]. apply SS_update_first_set_amount, Hs.
Qed.

Lemma auto_close_loop_inv (low high : Q) (Hlow : 0 < low) : forall rest (L : ledger Q),
  ledger_inv L -> Forall tp_nonneg rest ->
  ledger_inv (snd (auto_close_loop low high rest L)).
Proof.
  induction rest as [|g rest IH]; intros L HL Htp; [exact HL|].
  inversion Htp as [|? ? Hg Hrest]; subst.
  assert (Hsell : forall q, 0 <= q ->
            ledger_inv (snd (bind (apply_sell (sell_all g) q)
                                  (fun _ => auto_close_loop low high rest) L))).
  { intros q Hq. unfold bind.
    pose proof (sell_inv L (sell_all g) q HL Hq) as HL1.
    destruct (apply_sell (sell_all g) q L) as [[e|[]] L1]; [exact HL1|].
    exact (IH L1 HL1 Hrest). }
  cbn [auto_close_loop].
  destruct (find_holding (holding_id g) (holdings L)); [|exact (IH L HL Hrest)].
  destruct (sl_fires low g) as [s|] eqn:Hs.
  - apply Hsell. unfold sl_fires in Hs. destruct (stop_loss g); [|discriminate].
    destruct (n_leb low q) eqn:Hle; [|discriminate]. injection Hs as <-.
    apply Qle_bool_iff in Hle. lra.
  - destruct (tp_fires high g) as [t|] eqn:Ht; [|exact (IH L HL Hrest)].
    apply Hsell. unfold tp_fires in Ht. destruct (take_profit g) as [t'|] eqn:Ht'; [|discriminate].
    destruct (n_leb t' high); [|discriminate]. injection Ht as <-. exact (Hg t' Ht').
Qed.

Lemma auto_close_inv (L : ledger Q) (low high : Q) :
  ledger_inv L -> 0 < low -> ledger_inv (snd (auto_close_on_thresholds low high L)).
Proof.
  intros HL Hlow. unfold auto_close_on_thresholds. apply auto_close_loop_inv; [exact Hlow|exact HL|].
  pose proof HL as (u & btcs & Hh & _ & Ha & _ & Hall & _). rewrite Hh.
  apply List.Forall_forall. intros g Hg. apply List.filter_In in Hg as [Hg Hp].
  destruct Hg as [<-|Hg].
  - unfold is_btc, is_usd in Hp. rewrite Ha in Hp. discriminate.
  - rewrite List.Forall_forall in Hall. exact (proj1 (proj2 (proj2 (Hall g Hg)))).
Qed.

(** C6 (amended, exact arithmetic): every ledger a run can reach keeps the
    USD holding first, alone, with id ["USD"] and amount [>= -1e-12];
    every BTC holding has a positive amount and an id [H k] issued before
    [next_id], in increasing [k]; no two holdings share an id. *)
Theorem reachable_ledger_inv (L : ledger Q) :
  reachable L -> ledger_inv L /\ wf_book (holdings L).
Proof.
  intros HR. assert (HL : ledger_inv L); [|split; [exact HL|exact (ledger_inv_wf L HL)]].
  induction HR as [|L o p HR IH Htp|L o p HR IH Hp|L low high HR IH Hlow].
  - eexists _, []. split; [reflexivity|]. split; [reflexivity|]. split; [reflexivity|].
    split; [apply Qle_bool_iff; reflexivity|]. split; [constructor|]. split; [constructor|cbn; lia].
  - exact (buy_inv L o p IH Htp).
  - exact (sell_inv L o p IH Hp).
  - exact (auto_close_inv L low high IH Hlow).
Qed.

Lemma reachable_ledger_inv_witness :
  let o := {| b_amount := 1 # 2; b_stop_loss := Some 90; b_take_profit := Some 120 |} in
  let L1 := snd (apply_buy o 100 reset_portfolio) in
  let L2 := snd (auto_close_on_thresholds 95 110 L1) in
  let L3 := snd (apply_sell {| s_holding_id := "H1"; s_amount := 1 # 4 |} 105 L2) in
  ledger_inv L3 /\ wf_book (holdings L3).
Proof.
  intros o L1 L2 L3. apply reachable_ledger_inv.
  apply reach_sell; [|vm_compute; discriminate].
  apply reach_auto_close; [|vm_compute; reflexivity].
  apply reach_buy; [apply reach_reset|].
  intros t Ht. injection Ht as <-. vm_compute. discriminate.
Defined.

(** C6 (counterexample): [OrdersAdapter] accepts a BUY whose
    [take_profit] is negative; the same day's enforcement fires it
    ([-20000 <= high]) and sells at [-20000], so the run ends with the USD
    holding at [-10100]. *)
Lemma negative_take_profit_usd_negative :
  let mk (d : Z) : bar Q :=
    {| date := d; open_ := 100; high := 100; low := 100; close := 100; volume := 1 |} in
  let runner (first : bool) (df : list (bar Q)) (hs : list (snapshot Q)) :=
    if first
    then (SReturnList [VDict [("action", VStr "BUY"); ("asset", VStr "BTC");
                              ("amount", VFloat 1); ("take_profit", VFloat (-20000))]], false)
    else (SReturnNone, false) in
  match fst (test_strategy bool runner (load_prices [mk 1%Z; mk 2%Z; mk 3%Z])
               (day_ts 2) (day_ts 3) (Some true)) with
  | OResult [sn] total _ =>
      sn_holding_id sn = USD_HOLDING_ID /\ sn_amount sn == -10100 /\ total < 0
  | _ => False
  end.
Proof. vm_compute. split; [reflexivity|split; reflexivity]. Qed.

End InvariantFacts.

Module OrderFacts.
Import Backtester Specs.

Section Orders.
Context {R : Type} `{!Num R}.
Context (St : Type) (runner : St -> list (bar R) -> list (snapshot R) -> strat_out R * St).

Lemma dict_lookup_other (key k : string) (v : pyval R) kvs :
  String.eqb key k = false -> dict_lookup key ((k, v) :: kvs) = dict_lookup key kvs.
Proof. intros H. cbn [dict_lookup]. rewrite H. reflexivity. Qed.

Lemma req_Some {A} (f : pyval R -> option A) (k : string) kvs (x : A) :
  req f k kvs = Some x <-> exists v, dict_lookup k kvs = Some v /\ f v = Some x.
Proof.
  unfold req. destruct (dict_lookup k kvs) as [v|]; simpl.
  - split; [eauto|]. intros (v' & [= <-] & H). exact H.
  - split; [discriminate|]. intros (v' & H & _). discriminate.
Qed.

Lemma btc_field_Some (v : pyval R) : btc_field v = Some tt <-> v = VStr "BTC".
Proof.
  destruct v; simpl; try (split; [discriminate|intros ?; discriminate]).
  destruct (String.eqb_spec s "BTC") as [->|Hs]; [split; reflexivity|].
  split; [discriminate|]. intros [= ->]. congruence.
Qed.

Lemma opt_float_Some (k : string) kvs (x : option R) :
  opt_float k kvs = Some x <->
  (x = None /\ (dict_lookup k kvs = None \/ dict_lookup k kvs = Some VNone)) \/
  (exists y v, x = Some y /\ dict_lookup k kvs = Some v /\ float_field v = Some y).
Proof.
  unfold opt_float. destruct (dict_lookup k kvs) as [v|].
  2:{ split; [intros [= <-]; left; auto|].
      intros [[-> _]|(y & v & -> & H & _)]; [reflexivity|discriminate]. }
  assert (Hcase : v = VNone \/ (v <> VNone /\
            match Some v with None | Some VNone => Some None | Some v => Some <$> float_field v end
            = Some <$> float_field v)).
  { destruct v; [left; reflexivity|right; split; [discriminate|reflexivity]..]. }
  destruct Hcase as [->|[Hn ->]].
  - split; [intros [= <-]; left; auto|].
    intros [[-> _]|(y & v & -> & [= <-] & Hf)]; [reflexivity|discriminate].
  - destruct (float_field v) as [y|] eqn:Hf; simpl.
    + split.
      * intros [= <-]. right. eauto.
      * intros [[-> [H|H]]|(y' & v' & -> & [= <-] & Hf')]; try discriminate.
        -- injection H as ->. congruence.
        -- rewrite Hf in Hf'. congruence.
    + split; [discriminate|].
      intros [[-> [H|H]]|(y' & v' & -> & [= <-] & Hf')];
        [discriminate|injection H as ->; congruence|congruence].
Qed.


End Orders.

Local Open Scope Q_scope.



End OrderFacts.

(* ================================================================== *)
(** * Further properties of the executor, the engine and the ledger *)
(* ================================================================== *)

Module ExecutorMoreFacts.
Import Executor ExecutorMore ExecutorFacts.
Open Scope string_scope.

Lemma check_walk_none_iff (ex : executor) (walk : list node) :
  check_walk ex walk = None <-> Forall (fun nd => check_node ex nd = None) walk.
Proof.
  induction walk as [|nd rest IH]; simpl.
  - split; [constructor|reflexivity].
  - rewrite Forall_cons. destruct (check_node ex nd); [|tauto].
    split; [discriminate|intros [H _]; discriminate].
Qed.


Lemma check_walk_app_pass (ex : executor) (pre post : list node) :
  Forall (fun nd => check_node ex nd = None) pre ->
  check_walk ex (pre ++ post)%list = check_walk ex post.
Proof.
  induction 1 as [|nd pre Hnd _ IH]; [reflexivity|]. simpl. rewrite Hnd. exact IH.
Qed.

(** The rejection message of [check_and_compile] is the one of the first
    node of the walk that fails the screening; later nodes are never
    looked at and [compile] is never reached, whatever it would do with
    the tree. *)
Theorem check_and_compile_first_rejection (ex : executor) (code : string)
    (pre post : list node) (nd : node) (msg : string) :
  is_blank code = false ->
  Forall (fun n => check_node ex n = None) pre ->
  check_node ex nd = Some msg ->
  forall comp, check_and_compile ex code (Some ((pre ++ nd :: post)%list, comp)) = Rejected msg.
Proof.
  intros Hb Hpre Hnd comp. unfold check_and_compile. rewrite Hb.
  rewrite (check_walk_app_pass ex pre (nd :: post)%list Hpre). simpl. rewrite Hnd. reflexivity.
Qed.

Lemma split_top_no_dot (m : string) : no_dot m = true -> split_top m = m.
Proof.
  unfold no_dot. induction m as [|c m IH]; [reflexivity|]. simpl.
  destruct (Ascii.eqb c "."%char); [discriminate|]. simpl. intros H. rewrite IH; auto.
Qed.

Lemma split_top_dot (m sub : string) :
  no_dot m = true -> split_top (m +:+ String "."%char sub) = m.
Proof.
  unfold no_dot. induction m as [|c m IH]; [reflexivity|]. simpl.
  destruct (Ascii.eqb c "."%char); [discriminate|]. simpl. intros H. rewrite IH; auto.
Qed.

(** [import m.sub] passes the screening exactly when [import m] does: a
    dotted name is judged by its top-level package alone. *)
Theorem import_submodule_screening (ex : executor) (m sub : string) :
  no_dot m = true ->
  (check_node ex (NImport [m +:+ String "."%char sub]) = None <->
   check_node ex (NImport [m]) = None).
Proof.
  intros Hm. simpl. rewrite (split_top_dot m sub Hm), (split_top_no_dot m Hm).
  destruct (mem m (allowed_modules ex)); [tauto|split; discriminate].
Qed.

Lemma foldl_safe_lookup {V : Type} (bb : list string) (pb : list (string * V))
    (acc : gmap string V) (x : string) (v : V) :
  foldl (fun (safe : gmap string V) '(name, obj) =>
           if starts_with_underscore name && negb (String.eqb name "__build_class__")
           then safe
           else if mem name bb then safe
           else <[name := obj]> safe) acc pb !! x = Some v ->
  acc !! x = Some v \/
  (In (x, v) pb /\ mem x bb = false /\
   (starts_with_underscore x = false \/ x = "__build_class__")).
Proof.
  revert acc. induction pb as [|[name obj] pb IH]; intros acc; simpl; [auto|].
  intros H. destruct (IH _ H) as [Hacc|(Hin & Hb & Hu)]; [|right; auto].
  destruct (starts_with_underscore name && negb (String.eqb name "__build_class__")) eqn:Hu;
    [auto|].
  destruct (mem name bb) eqn:Hb; [auto|].
  destruct (decide (name = x)) as [->|Hne].
  - rewrite lookup_insert in Hacc. destruct (decide (x = x)) as [_|]; [|congruence].
    injection Hacc as ->. right. split; [left; reflexivity|]. split; [exact Hb|].
    apply andb_false_iff in Hu as [Hu|Hu]; [left; exact Hu|right].
    apply negb_false_iff, String.eqb_eq in Hu. exact Hu.
  - rewrite lookup_insert_ne in Hacc by exact Hne. auto.
Qed.

Lemma foldl_safe_mono {V : Type} (bb : list string) (pb : list (string * V))
    (acc : gmap string V) (x : string) :
  is_Some (acc !! x) ->
  is_Some (foldl (fun (safe : gmap string V) '(name, obj) =>
           if starts_with_underscore name && negb (String.eqb name "__build_class__")
           then safe
           else if mem name bb then safe
           else <[name := obj]> safe) acc pb !! x).
Proof.
  revert acc. induction pb as [|[name obj] pb IH]; intros acc Hx; simpl; [exact Hx|].
  apply IH. repeat case_match; try exact Hx.
  destruct (decide (name = x)) as [->|Hne].
  - rewrite lookup_insert. destruct (decide (x = x)); [eauto|congruence].
  - rewrite lookup_insert_ne by exact Hne. exact Hx.
Qed.

Lemma foldl_safe_present {V : Type} (bb : list string) (pb : list (string * V))
    (acc : gmap string V) (x : string) (v : V) :
  In (x, v) pb -> mem x bb = false ->
  (starts_with_underscore x = false \/ x = "__build_class__") ->
  is_Some (foldl (fun (safe : gmap string V) '(name, obj) =>
           if starts_with_underscore name && negb (String.eqb name "__build_class__")
           then safe
           else if mem name bb then safe
           else <[name := obj]> safe) acc pb !! x).
Proof.
  revert acc. induction pb as [|[name obj] pb IH]; intros acc Hin Hb Hu; [destruct Hin|].
  destruct Hin as [[= -> ->]|Hin]; simpl; [|apply IH; assumption].
  apply foldl_safe_mono.
  assert (Hkeep : starts_with_underscore x && negb (String.eqb x "__build_class__") = false).
  { destruct Hu as [-> | ->]; reflexivity. }
  rewrite Hkeep, Hb. rewrite lookup_insert. destruct (decide (x = x)); [eauto|congruence].
Qed.

(** The builtins a sandboxed module sees: [__import__] is always the
    sandbox's import hook; any other name there is a public builtin (or
    [__build_class__]) that is not banned, with its own object; and every
    such builtin is there. *)
Theorem build_safe_builtins_spec {V : Type} (bb : list string) (pb : list (string * V))
    (hook : V) :
  build_safe_builtins bb pb hook !! "__import__" = Some hook /\
  (forall x v, build_safe_builtins bb pb hook !! x = Some v -> x <> "__import__" ->
     In (x, v) pb /\ mem x bb = false /\
     (starts_with_underscore x = false \/ x = "__build_class__")) /\
  (forall x v, In (x, v) pb -> mem x bb = false ->
     (starts_with_underscore x = false \/ x = "__build_class__") ->
     is_Some (build_safe_builtins bb pb hook !! x)).
Proof.
  unfold build_safe_builtins. split; [|split].
  - rewrite lookup_insert. destruct (decide _); [reflexivity|congruence].
  - intros x v Hx Hne. rewrite lookup_insert_ne in Hx by congruence.
    destruct (foldl_safe_lookup bb pb ∅ x v Hx) as [H|H]; [|exact H].
    rewrite lookup_empty in H. discriminate.
  - intros x v Hin Hb Hu. destruct (decide (x = "__import__")) as [->|Hne].
    + rewrite lookup_insert. destruct (decide _); [eauto|congruence].
    + rewrite lookup_insert_ne by congruence. eapply foldl_safe_present; eauto.
Qed.

(** The import hook installed at run time blocks exactly the module names
    that the static screening rejects, for [import m] and for
    [from m import ...] alike, and otherwise defers to the real import. *)
Theorem safe_import_agrees_with_screening {V : Type} (ex : executor)
    (import_ : string -> string + V) (name : string) (lvl : nat) :
  safe_import ex import_ name =
    match check_node ex (NImport [name]) with
    | None => import_ name
    | Some _ => inl ("ImportError: Import blocked: " +:+ name)
    end /\
  safe_import ex import_ name =
    match check_node ex (NImportFrom (Some name) lvl) with
    | None => import_ name
    | Some _ => inl ("ImportError: Import blocked: " +:+ name)
    end.
Proof.
  unfold safe_import. simpl. destruct (mem (split_top name) (allowed_modules ex)); auto.
Qed.

Lemma check_and_compile_first_rejection_witness :
  let code := "import os; eval(1)" in
  let pre := [NOther] in
  let post := [NOther; NOther; NOther; NName "eval"; NOther; NOther] in
  is_blank code = false /\
  Forall (fun n => check_node default_executor n = None) pre /\
  check_node default_executor (NImport ["os"]) = Some "Unsafe import not allowed: import os" /\
  check_and_compile default_executor code (Some ((pre ++ NImport ["os"] :: post)%list, None))
  = Rejected "Unsafe import not allowed: import os".
Proof.
  intros code pre post.
  assert (H1 : is_blank code = false) by reflexivity.
  assert (H2 : Forall (fun n => check_node default_executor n = None) pre)
    by (constructor; [reflexivity|constructor]).
  assert (H3 : check_node default_executor (NImport ["os"])
               = Some "Unsafe import not allowed: import os") by reflexivity.
  split; [exact H1|]. split; [exact H2|]. split; [exact H3|].
  exact (check_and_compile_first_rejection default_executor code pre post _ _ H1 H2 H3 None).
Defined.

Lemma import_submodule_screening_witness :
  no_dot "numpy" = true /\
  (check_node default_executor (NImport ["numpy" +:+ String "."%char "linalg"]) = None <->
   check_node default_executor (NImport ["numpy"]) = None).
Proof.
  assert (H : no_dot "numpy" = true) by reflexivity.
  split; [exact H|]. exact (import_submodule_screening default_executor "numpy" "linalg" H).
Defined.

End ExecutorMoreFacts.

Module EngineMoreFacts.
Import Backtester Specs PriceFacts EngineFacts EngineMore.

Section Engine.
Context {R : Type} `{!Num R}.
Context (St : Type) (runner : St -> list (bar R) -> list (snapshot R) -> strat_out R * St).

(** Each view handed out extends the previous one: a later cutoff only
    appends rows. *)
Theorem get_df_until_date_extends (df : list (bar R)) (d1 d2 : timestamp) :
  (ts_day d1 <= ts_day d2)%Z ->
  exists rest, get_df_until_date df d2 = (get_df_until_date df d1 ++ rest)%list.
Proof.
  intros Hle. unfold get_df_until_date, to_timestamp.
  assert (Hm : (searchsorted_right (map date df) (ts_day d1)
                <= searchsorted_right (map date df) (ts_day d2))%nat).
  { clear -Hle. induction df as [|b df IH]; simpl; [lia|].
    destruct (date b <=? ts_day d1)%Z eqn:H1; [|lia].
    assert (H2 : (date b <=? ts_day d2)%Z = true) by (apply Z.leb_le in H1; apply Z.leb_le; lia).
    rewrite H2. lia. }
  exists (drop (searchsorted_right (map date df) (ts_day d1))
            (take (searchsorted_right (map date df) (ts_day d2)) df)).
  assert (E : take (searchsorted_right (map date df) (ts_day d1)) df
               = take (searchsorted_right (map date df) (ts_day d1))
                   (take (searchsorted_right (map date df) (ts_day d2)) df))
    by (rewrite take_take, Nat.min_l; [reflexivity|exact Hm]).
  rewrite E. symmetry. apply take_drop.
Qed.

Lemma filter_date_absent (df : list (bar R)) (d : Z) :
  ~ In d (map date df) -> List.filter (fun x => (date x =? d)%Z) df = [].
Proof.
  induction df as [|x xs IH]; simpl; [reflexivity|]. intros Hn.
  destruct (date x =? d)%Z eqn:E; [apply Z.eqb_eq in E; tauto|]. apply IH. tauto.
Qed.

Lemma find_row_of_in (df : list (bar R)) (b : bar R) :
  NoDup (map date df) -> In b df -> find_row df (date b) = Some b.
Proof.
  unfold find_row. intros Hnd Hb.
  enough (E : List.filter (fun x => (date x =? date b)%Z) df = [b]) by (rewrite E; reflexivity).
  induction df as [|x xs IH]; [destruct Hb|]. simpl in Hnd. inversion Hnd as [|? ? Hx Hxs]; subst.
  rewrite list_elem_of_In in Hx. simpl. destruct Hb as [<-|Hb].
  - rewrite Z.eqb_refl, filter_date_absent; [reflexivity|exact Hx].
  - destruct (date x =? date b)%Z eqn:E.
    + apply Z.eqb_eq in E. exfalso. apply Hx. rewrite E. apply in_map, Hb.
    + apply IH; assumption.
Qed.

Lemma load_prices_nodup (rows : list (bar R)) :
  NoDup (map date rows) -> NoDup (map date (load_prices rows)).
Proof.
  apply NoDup_Permutation_proper, Permutation_map. unfold load_prices.
  apply merge_sort_Permutation.
Qed.

Lemma get_trading_dates_rows (df : list (bar R)) (start end_ : timestamp) (dates : list Z) :
  get_trading_dates df start end_ = inr dates ->
  forall d, In d dates <->
    exists b, In b df /\ date b = d /\ (ts_day start <= d <= ts_day end_)%Z.
Proof.
  unfold get_trading_dates.
  destruct (validate_and_slice_range df start end_) as [e|sub] eqn:Hv; [discriminate|].
  intros Hres. injection Hres as <-. intros d.
  rewrite (validate_and_slice_range_subset _ _ _ _ Hv). unfold to_timestamp.
  rewrite in_map_iff. split.
  - intros [b [<- Hb]]. apply List.filter_In in Hb as [Hb Hr].
    apply andb_true_iff in Hr as [H1 H2]. apply Z.leb_le in H1, H2. eauto.
  - intros (b & Hb & <- & H1 & H2). exists b. split; [reflexivity|].
    apply List.filter_In. split; [exact Hb|]. apply andb_true_iff. split; apply Z.leb_le; lia.
Qed.

Lemma trading_dates_have_rows (df : list (bar R)) (start end_ : timestamp) (dates : list Z) :
  NoDup (map date df) ->
  get_trading_dates df start end_ = inr dates ->
  forall d, In d dates -> exists b, find_row df d = Some b /\ date b = d.
Proof.
  intros Hnd Hd d Hin. apply (get_trading_dates_rows _ _ _ _ Hd d) in Hin as (b & Hb & <- & _).
  exists b. split; [apply find_row_of_in; assumption|reflexivity].
Qed.

(** The trading dates of the loaded table are, in ascending order, exactly
    the dates of the CSV rows that fall in [[start, end]], and, when no
    date occurs twice in the CSV, [self.prices.df.loc[day]] finds for each
    of them the one row of that date. *)
Theorem get_trading_dates_from_rows (rows : list (bar R)) (start end_ : timestamp)
    (dates : list Z) :
  get_trading_dates (load_prices rows) start end_ = inr dates ->
  StronglySorted Z.le dates /\
  (forall d, In d dates <->
     exists b, In b rows /\ date b = d /\ (ts_day start <= d <= ts_day end_)%Z) /\
  (NoDup (map date rows) ->
   forall d, In d dates -> exists b, find_row (load_prices rows) d = Some b /\ date b = d).
Proof.
  intros Hd. pose proof (load_prices_sorted rows) as Hs.
  assert (Hperm : forall b, In b (load_prices rows) <-> In b rows).
  { intros b. unfold load_prices. rewrite <- !list_elem_of_In.
    apply elem_of_Permutation_proper, merge_sort_Permutation. }
  split; [exact (get_trading_dates_sorted _ _ _ _ Hs Hd)|]. split.
  - intros d. rewrite (get_trading_dates_rows _ _ _ _ Hd d).
    split; intros (b & Hb & Hrest); exists b; split; try exact Hrest; apply Hperm, Hb.
  - intros Hnd. apply (trading_dates_have_rows _ _ _ _ (load_prices_nodup rows Hnd) Hd).
Qed.

(** A range that [_validate_and_slice_range] accepts is ordered, lies
    within the first and last dates of the table and selects at least one
    row; in particular an empty table rejects every range. *)
Theorem validate_and_slice_range_accepts_within (df : list (bar R)) (start end_ : timestamp)
    (sub : list (bar R)) :
  validate_and_slice_range df start end_ = inr sub ->
  (ts_day start <= ts_day end_)%Z /\ sub <> [] /\
  exists b0 bl, head df = Some b0 /\ last df = Some bl /\
    (date b0 <= ts_day start)%Z /\ (ts_day end_ <= date bl)%Z.
Proof.
  unfold validate_and_slice_range, to_timestamp.
  destruct (ts_day end_ <? ts_day start)%Z eqn:Hse; [discriminate|].
  apply Z.ltb_ge in Hse.
  destruct df as [|b0 bs] eqn:Hdf.
  - simpl. intros H. discriminate H.
  - destruct (last (b0 :: bs)) as [bl|] eqn:Hl.
    2:{ exfalso. destruct (last_nonempty (b0 :: bs)) as [y Hy]; [discriminate|congruence]. }
    destruct ((ts_day start <? date b0) || (date bl <? ts_day end_))%Z eqn:Hb; [discriminate|].
    apply orb_false_iff in Hb as [H1 H2]. apply Z.ltb_ge in H1, H2.
    destruct (List.filter _ _) as [|x xs] eqn:Hf; [discriminate|].
    intros Hres. injection Hres as <-.
    split; [exact Hse|]. split; [discriminate|]. exists b0, bl. auto.
Qed.

Lemma day_step_no_unexpected (df : list (bar R)) (d : Z) (s : St) (L : ledger R)
    (o : outcome R) :
  get_df_until_date df (day_ts (d - 1)) <> [] -> is_Some (find_row df d) ->
  snd (day_step St runner df d s L) = inl o -> is_unexpected o = false.
Proof.
  intros Hne [row Hrow]. unfold day_step.
  destruct (get_df_until_date df (day_ts (d - 1))) as [|b0 bs] eqn:Hdf; [congruence|].
  destruct (last_known_close (b0 :: bs)) as [p|] eqn:Hp.
  2:{ exfalso. destruct (last_nonempty (b0 :: bs)) as [y Hy]; [discriminate|].
      unfold last_known_close in Hp. rewrite Hy in Hp. discriminate. }
  rewrite Hrow.
  destruct (runner s (b0 :: bs) _) as [out s']. destruct out.
  all: repeat case_match; simpl; intros Hres; try discriminate; injection Hres as <-; reflexivity.
Qed.

Lemma run_days_no_unexpected (df : list (bar R)) (days : list Z) (s : St) (L : ledger R)
    (tr tr' : list (call R)) (o : outcome R) :
  (forall d, In d days -> get_df_until_date df (day_ts (d - 1)) <> [] /\ is_Some (find_row df d)) ->
  run_days St runner df days s L tr = (inl o, tr') -> is_unexpected o = false.
Proof.
  revert s L tr. induction days as [|d rest IH]; intros s L tr Hdays; simpl; [discriminate|].
  destruct (day_step St runner df d s L) as [c r] eqn:Hstep.
  destruct r as [o'|[s' L']].
  - intros H. injection H as <- _.
    destruct (Hdays d (or_introl eq_refl)) as [H1 H2].
    apply (day_step_no_unexpected df d s L o' H1 H2). rewrite Hstep. reflexivity.
  - apply IH. intros d' Hd'. apply Hdays. right. exact Hd'.
Qed.

Lemma get_trading_dates_nonempty (df : list (bar R)) (start end_ : timestamp) (dates : list Z) :
  get_trading_dates df start end_ = inr dates -> exists d, last dates = Some d.
Proof.
  unfold get_trading_dates.
  destruct (validate_and_slice_range df start end_) as [e|sub] eqn:Hv; [discriminate|].
  intros Hres. injection Hres as <-. apply last_nonempty.
  unfold validate_and_slice_range in Hv.
  repeat case_match; try discriminate; injection Hv as <-; subst; simpl; discriminate.
Qed.

(** Every trading date of the loaded table passes the warm-up check of
    the loop once the first one does. *)
Lemma dates_views_nonempty (rows : list (bar R)) (start end_ : timestamp) (dates : list Z) :
  get_trading_dates (load_prices rows) start end_ = inr dates ->
  get_df_until_date (load_prices rows) (day_ts (default 0%Z (head dates) - 1)) <> [] ->
  forall d, In d dates -> get_df_until_date (load_prices rows) (day_ts (d - 1)) <> [].
Proof.
  intros Hdates Hw d Hd. pose proof (load_prices_sorted rows) as Hs.
  pose proof (get_trading_dates_sorted _ _ _ _ Hs Hdates) as Hsd.
  apply (view_nonempty_mono _ (default 0%Z (head dates) - 1)); [exact Hs|exact Hw|].
  destruct dates as [|d0 ds]; [destruct Hd|]. simpl.
  destruct Hd as [->|Hd]; [lia|].
  inversion Hsd as [|? ? _ Hall]; subst. rewrite List.Forall_forall in Hall.
  specialize (Hall d Hd). lia.
Qed.

Lemma day_step_no_propagated (df : list (bar R)) (d : Z) (s : St) (L : ledger R) :
  (forall s df hs, fst (runner s df hs) <> SRaiseBase) ->
  snd (day_step St runner df d s L) <> inl OPropagated.
Proof.
  intros Hnb. unfold day_step.
  destruct (get_df_until_date df (day_ts (d - 1))) as [|b0 bs]; [simpl; discriminate|].
  destruct (last_known_close (b0 :: bs)) as [p|]; [|simpl; discriminate].
  destruct (find_row df d) as [row|]; [|simpl; discriminate].
  pose proof (Hnb s (b0 :: bs) (snapshot_holdings_with_price (holdings L) p)) as Hn.
  destruct (runner s (b0 :: bs) _) as [out s']. simpl in Hn.
  destruct out; [| congruence | | |].
  all: repeat case_match; simpl; discriminate.
Qed.

Lemma run_days_no_propagated (df : list (bar R)) (days : list Z) (s : St) (L : ledger R)
    (tr tr' : list (call R)) :
  (forall s df hs, fst (runner s df hs) <> SRaiseBase) ->
  run_days St runner df days s L tr <> (inl OPropagated, tr').
Proof.
  intros Hnb. revert s L tr. induction days as [|d rest IH]; intros s L tr; simpl; [discriminate|].
  destruct (day_step St runner df d s L) as [c r] eqn:Hstep.
  destruct r as [o'|[s' L']].
  - intros H. injection H as -> _. apply (day_step_no_propagated df d s L Hnb).
    rewrite Hstep. reflexivity.
  - apply IH.
Qed.



Lemma day_step_call_ledger (df : list (bar R)) (d : Z) (s : St) (L : ledger R) (c : call R)
    (r : outcome R + (St * ledger R)) :
  day_step St runner df d s L = (Some c, r) -> c_day c = d /\ c_ledger c = L.
Proof.
  unfold day_step. intros H.
  destruct (get_df_until_date df (day_ts (d - 1))) as [|b0 bs]; [discriminate|].
  destruct (last_known_close (b0 :: bs)) as [p|]; [|discriminate].
  destruct (find_row df d) as [row|]; [|discriminate].
  destruct (runner s (b0 :: bs) _) as [out s'].
  assert (Hc : c = {| c_day := d; c_df := b0 :: bs;
                      c_holdings := snapshot_holdings_with_price (holdings L) p;
                      c_ledger := L |}).
  { repeat case_match; congruence. }
  subst c. split; reflexivity.
Qed.

Lemma day_step_continue_call (df : list (bar R)) (d : Z) (s : St) (L : ledger R)
    (s' : St) (L' : ledger R) :
  snd (day_step St runner df d s L) = inr (s', L') -> exists c, fst (day_step St runner df d s L) = Some c.
Proof.
  unfold day_step.
  destruct (get_df_until_date df (day_ts (d - 1))) as [|b0 bs]; [discriminate|].
  destruct (last_known_close (b0 :: bs)) as [p|]; [|discriminate].
  destruct (find_row df d) as [row|]; [|discriminate].
  destruct (runner s (b0 :: bs) _) as [out s''].
  repeat case_match; simpl; intros; try discriminate; eauto.
Qed.

Lemma run_days_days (df : list (bar R)) (days : list Z) (s : St) (L : ledger R)
    (tr : list (call R)) (r : outcome R + ledger R) (tr' : list (call R)) :
  run_days St runner df days s L tr = (r, tr') ->
  exists k new, tr' = (tr ++ new)%list /\ map c_day new = take k days /\
    (forall L', r = inr L' -> k = length days) /\
    (forall c, head new = Some c -> c_ledger c = L).
Proof.
  revert s L tr. induction days as [|d rest IH]; intros s L tr; simpl.
  - intros [= <- <-]. exists 0%nat, []. rewrite app_nil_r. repeat split; try reflexivity.
    discriminate.
  - destruct (day_step St runner df d s L) as [c r0] eqn:Hstep.
    destruct r0 as [o|[s' L']].
    + intros [= <- <-]. destruct c as [c|].
      * destruct (day_step_call_ledger _ _ _ _ _ _ Hstep) as [Hd HL].
        exists 1%nat, [c]. simpl. rewrite Hd. repeat split; try reflexivity; [discriminate|].
        intros c' [= <-]. exact HL.
      * exists 0%nat, []. simpl. rewrite app_nil_r. repeat split; try reflexivity; discriminate.
    + intros Hr. destruct (day_step_continue_call df d s L s' L') as [c1 Hc];
        [rewrite Hstep; reflexivity|].
      rewrite Hstep in Hc. simpl in Hc. subst c.
      rename c1 into c.
      destruct (day_step_call_ledger _ _ _ _ _ _ Hstep) as [Hd HL].
      destruct (IH _ _ _ Hr) as (k & new & -> & Hk & Hlen & _).
      exists (S k), (c :: new). simpl. rewrite <- app_assoc. split; [reflexivity|].
      rewrite Hd, Hk. split; [reflexivity|]. split.
      * intros L'' HL''. rewrite (Hlen L'' HL''). reflexivity.
      * intros c' [= <-]. exact HL.
Qed.

Lemma day_step_no_result (df : list (bar R)) (d : Z) (s : St) (L : ledger R)
    (hs : list (snapshot R)) (t rev : R) :
  snd (day_step St runner df d s L) <> inl (OResult hs t rev).
Proof.
  unfold day_step.
  destruct (get_df_until_date df (day_ts (d - 1))) as [|b0 bs]; [simpl; discriminate|].
  destruct (last_known_close (b0 :: bs)) as [p|]; [|simpl; discriminate].
  destruct (find_row df d) as [row|]; [|simpl; discriminate].
  destruct (runner s (b0 :: bs) _) as [out s''].
  repeat case_match; simpl; try discriminate; subst; injection H as <-; subst; discriminate.
Qed.

Lemma run_days_no_result (df : list (bar R)) (days : list Z) (s : St) (L : ledger R)
    (tr tr' : list (call R)) (hs : list (snapshot R)) (t rev : R) :
  run_days St runner df days s L tr = (inl (OResult hs t rev), tr') -> False.
Proof.
  revert s L tr. induction days as [|d rest IH]; intros s L tr; simpl; [discriminate|].
  destruct (day_step St runner df d s L) as [c r] eqn:Hstep.
  destruct r as [o|[s' L']].
  - intros [= -> _]. apply (day_step_no_result df d s L hs t rev). rewrite Hstep. reflexivity.
  - apply IH.
Qed.

(** [test_strategy] calls the strategy at most once per trading date, in
    date order and without skipping a date: the days of its calls are a
    prefix of the trading dates, all of them when it returns a result; and
    the first call sees the freshly reset portfolio. *)
Theorem test_strategy_calls_follow_dates (df : list (bar R)) (start end_ : timestamp)
    (compiled : option St) (dates : list Z) :
  get_trading_dates df start end_ = inr dates ->
  (exists k, map c_day (snd (test_strategy St runner df start end_ compiled)) = take k dates) /\
  (forall hs t rev, fst (test_strategy St runner df start end_ compiled) = OResult hs t rev ->
     map c_day (snd (test_strategy St runner df start end_ compiled)) = dates) /\
  (forall c, head (snd (test_strategy St runner df start end_ compiled)) = Some c ->
     c_ledger c = reset_portfolio).
Proof.
  intros Hdates. unfold test_strategy. rewrite Hdates.
  destruct (get_df_until_date df (day_ts (default 0%Z (head dates) - 1))) as [|b0 bs].
  { simpl. split; [exists 0%nat; reflexivity|]. split; [discriminate|discriminate]. }
  destruct compiled as [s0|].
  2:{ simpl. split; [exists 0%nat; reflexivity|]. split; [discriminate|discriminate]. }
  destruct (run_days St runner df dates s0 reset_portfolio []) as [r tr] eqn:Hr.
  destruct (run_days_days _ _ _ _ _ _ _ Hr) as (k & new & Htr & Hk & Hlen & Hhead).
  simpl in Htr. subst tr.
  destruct r as [o|L]; simpl.
  - split; [exists k; exact Hk|]. split; [|exact Hhead].
    intros hs t rev Ho. subst o.
    exact (False_ind _ (run_days_no_result _ _ _ _ _ _ _ _ _ Hr)).
  - split; [exists k; exact Hk|]. split; [|exact Hhead].
    intros _ _ _ _. rewrite Hk, (Hlen L eq_refl). apply firstn_all.
Qed.

End Engine.

Section Idle.
Context {R : Type} `{!Num R}.
Context (St : Type) (runner : St -> list (bar R) -> list (snapshot R) -> strat_out R * St).
Hypothesis runner_idle :
  forall s df hs, fst (runner s df hs) = SReturnNone \/ fst (runner s df hs) = SReturnList [].

Lemma day_step_idle (df : list (bar R)) (d : Z) (s : St) :
  (exists s', snd (day_step St runner df d s reset_portfolio) = inr (s', reset_portfolio)) \/
  (exists o, snd (day_step St runner df d s reset_portfolio) = inl o /\
             (is_unexpected o = true \/ o = OHistoryError d)).
Proof.
  unfold day_step.
  destruct (get_df_until_date df (day_ts (d - 1))) as [|b0 bs]; [right; eauto|].
  destruct (last_known_close (b0 :: bs)) as [p|]; [|right; eexists; split; [reflexivity|auto]].
  destruct (find_row df d) as [row|]; [|right; eexists; split; [reflexivity|auto]].
  destruct (runner s (b0 :: bs) _) as [out s'] eqn:Hrun.
  pose proof (runner_idle s (b0 :: bs) (snapshot_holdings_with_price (holdings reset_portfolio) p))
    as Hidle.
  rewrite Hrun in Hidle. simpl in Hidle.
  left. exists s'. destruct Hidle as [-> | ->]; reflexivity.
Qed.

Lemma run_days_idle (df : list (bar R)) (days : list Z) (s : St) (tr : list (call R)) :
  fst (run_days St runner df days s reset_portfolio tr) = inr reset_portfolio \/
  exists o, fst (run_days St runner df days s reset_portfolio tr) = inl o /\
    (is_unexpected o = true \/ exists x, o = OHistoryError x).
Proof.
  revert s tr. induction days as [|d rest IH]; intros s tr; simpl; [auto|].
  destruct (day_step_idle df d s) as [[s' Hs]|(o & Ho & Hk)];
    destruct (day_step St runner df d s reset_portfolio) as [c r]; simpl in *; subst r.
  - apply IH.
  - right. exists o. split; [reflexivity|]. destruct Hk; eauto.
Qed.

End Idle.


Local Open Scope Q_scope.

Lemma get_df_until_date_extends_witness :
  let mk d c : bar Q := {| date := d; open_ := c; high := c; low := c; close := c; volume := 1 |} in
  let df := load_prices [mk 3%Z 105; mk 1%Z 100; mk 4%Z 108; mk 2%Z 102] in
  (ts_day (day_ts 1) <= ts_day (day_ts 3))%Z /\
  exists rest, get_df_until_date df (day_ts 3) = (get_df_until_date df (day_ts 1) ++ rest)%list.
Proof.
  intros mk df. assert (H : (ts_day (day_ts 1) <= ts_day (day_ts 3))%Z) by (simpl; lia).
  split; [exact H|]. exact (get_df_until_date_extends df (day_ts 1) (day_ts 3) H).
Defined.

Lemma get_trading_dates_from_rows_witness :
  let mk d c : bar Q := {| date := d; open_ := c; high := c; low := c; close := c; volume := 1 |} in
  let rows := [mk 3%Z 105; mk 1%Z 100; mk 4%Z 108; mk 2%Z 102] in
  get_trading_dates (load_prices rows) (day_ts 2) (day_ts 3) = inr [2; 3]%Z /\
  StronglySorted Z.le [2; 3]%Z /\
  (forall d, In d [2; 3]%Z <->
     exists b, In b rows /\ date b = d /\ (ts_day (day_ts 2) <= d <= ts_day (day_ts 3))%Z) /\
  (NoDup (map date rows) ->
   forall d, In d [2; 3]%Z -> exists b, find_row (load_prices rows) d = Some b /\ date b = d).
Proof.
  intros mk rows.
  assert (H : get_trading_dates (load_prices rows) (day_ts 2) (day_ts 3) = inr [2; 3]%Z)
    by (vm_compute; reflexivity).
  split; [exact H|]. exact (get_trading_dates_from_rows rows (day_ts 2) (day_ts 3) _ H).
Defined.


Lemma validate_and_slice_range_accepts_within_witness :
  let mk d c : bar Q := {| date := d; open_ := c; high := c; low := c; close := c; volume := 1 |} in
  let df := load_prices [mk 3%Z 105; mk 1%Z 100; mk 4%Z 108; mk 2%Z 102] in
  let sub := match validate_and_slice_range df (day_ts 2) (day_ts 3) with
             | inr sub => sub | inl _ => [] end in
  validate_and_slice_range df (day_ts 2) (day_ts 3) = inr sub /\
  (ts_day (day_ts 2) <= ts_day (day_ts 3))%Z /\ sub <> [] /\
  exists b0 bl, head df = Some b0 /\ last df = Some bl /\
    (date b0 <= ts_day (day_ts 2))%Z /\ (ts_day (day_ts 3) <= date bl)%Z.
Proof.
  intros mk df sub.
  assert (H : validate_and_slice_range df (day_ts 2) (day_ts 3) = inr sub)
    by (vm_compute; reflexivity).
  split; [exact H|]. exact (validate_and_slice_range_accepts_within df (day_ts 2) (day_ts 3) sub H).
Defined.

Lemma test_strategy_calls_follow_dates_witness :
  let mk d o h l c : bar Q :=
    {| date := d; open_ := o; high := h; low := l; close := c; volume := 1 |} in
  let df := load_prices [mk 3%Z 102 106 100 105; mk 1%Z 100 101 99 100;
                         mk 4%Z 105 110 104 108; mk 2%Z 100 103 98 102] in
  let runner (s : unit) (df : list (bar Q)) (hs : list (snapshot Q)) :=
    (SReturnList [VDict [("action", VStr "BUY"); ("asset", VStr "BTC");
                         ("amount", VFloat (1#10))]], tt) in
  get_trading_dates df (day_ts 3) (day_ts 4) = inr [3; 4]%Z /\
  (exists k, map c_day (snd (test_strategy unit runner df (day_ts 3) (day_ts 4) (Some tt)))
             = take k [3; 4]%Z) /\
  (forall hs t rev, fst (test_strategy unit runner df (day_ts 3) (day_ts 4) (Some tt))
                    = OResult hs t rev ->
     map c_day (snd (test_strategy unit runner df (day_ts 3) (day_ts 4) (Some tt))) = [3; 4]%Z) /\
  (forall c, head (snd (test_strategy unit runner df (day_ts 3) (day_ts 4) (Some tt))) = Some c ->
     c_ledger c = reset_portfolio).
Proof.
  intros mk df runner.
  assert (H : get_trading_dates df (day_ts 3) (day_ts 4) = inr [3; 4]%Z)
    by (vm_compute; reflexivity).
  split; [exact H|].
  exact (test_strategy_calls_follow_dates unit runner df (day_ts 3) (day_ts 4) (Some tt) _ H).
Defined.

Local Close Scope Q_scope.


End EngineMoreFacts.

Module LedgerMoreFacts.
Import Backtester Specs LedgerMore.

Section Generic.
Context {R : Type} `{!Num R}.

(** [_apply_orders] on a concatenated batch runs the first part, then the
    second on the resulting ledger; when an order of the first part raises,
    the later orders never run. The mutations made before a failing order
    are kept, not rolled back: when the prefix succeeds and the next order
    raises, the ledger after the batch is the one that order leaves behind
    on the ledger after the prefix, and a failing BUY leaves that ledger
    exactly as the prefix made it. *)
Theorem apply_orders_app (os1 os2 : list (order R)) (p : R) (L : ledger R) :
  apply_orders (os1 ++ os2) p L = bind (apply_orders os1 p) (fun _ => apply_orders os2 p) L /\
  (forall e, fst (apply_orders os1 p L) = inl e ->
     apply_orders (os1 ++ os2) p L = apply_orders os1 p L) /\
  (forall o post e,
     fst (apply_orders os1 p L) = inr tt ->
     fst (apply_orders [o] p (snd (apply_orders os1 p L))) = inl e ->
     apply_orders (os1 ++ o :: post) p L
       = (inl e, snd (apply_orders [o] p (snd (apply_orders os1 p L)))) /\
     (forall b, o = Buy b ->
        snd (apply_orders [o] p (snd (apply_orders os1 p L))) = snd (apply_orders os1 p L))).
Proof.
  assert (Happ : forall os2 L, apply_orders (os1 ++ os2) p L
                 = bind (apply_orders os1 p) (fun _ => apply_orders os2 p) L).
  { intros os2' L'. revert L'. induction os1 as [|o os1 IH]; intros L0.
    - reflexivity.
    - destruct o as [o|o]; cbn [app apply_orders]; unfold bind;
        [destruct (apply_buy o p L0) as [[e|[]] L1]|destruct (apply_sell o p L0) as [[e|[]] L1]];
        try reflexivity; apply IH. }
  split; [apply Happ|]. split.
  - intros e He. rewrite Happ. unfold bind.
    destruct (apply_orders os1 p L) as [[e'|x] L']; simpl in He; [reflexivity|discriminate].
  - intros o post e H1 H2. rewrite Happ. unfold bind at 1.
    destruct (apply_orders os1 p L) as [[e'|[]] L1]; simpl in H1, H2 |- *; [discriminate|].
    destruct o as [o|o]; cbn [apply_orders] in H2 |- *; unfold bind in H2 |- *.
    + destruct (apply_buy o p L1) as [[e2|[]] L2] eqn:Hb; simpl in H2 |- *; [|discriminate].
      injection H2 as <-. split; [reflexivity|]. intros b _.
      unfold apply_buy in Hb. repeat case_match; congruence.
    + destruct (apply_sell o p L1) as [[e2|[]] L2]; simpl in H2 |- *; [|discriminate].
      injection H2 as <-. split; [reflexivity|]. intros b Hb. discriminate.
Qed.

Lemma apply_buy_next_id (o : buy_order) (p : R) (L : ledger R) :
  next_id (snd (apply_buy o p L)) = next_id L /\ fst (apply_buy o p L) <> inr tt \/
  next_id (snd (apply_buy o p L)) = S (next_id L) /\ fst (apply_buy o p L) = inr tt.
Proof.
  unfold apply_buy. repeat case_match; simpl; auto; left; split; auto; discriminate.
Qed.

Lemma apply_sell_next_id (o : sell_order) (p : R) (L : ledger R) :
  next_id (snd (apply_sell o p L)) = next_id L.
Proof. unfold apply_sell. repeat case_match; reflexivity. Qed.

(** Each successful BUY of a batch issues exactly one id and nothing else
    issues any: after [_apply_orders], [_next_id] has grown by at most the
    number of BUY orders, and by exactly that number when the batch
    succeeds. *)
Theorem apply_orders_next_id (os : list (order R)) (p : R) (L : ledger R) :
  (next_id L <= next_id (snd (apply_orders os p L)) <= next_id L + count_buys os)%nat /\
  (fst (apply_orders os p L) = inr tt ->
   next_id (snd (apply_orders os p L)) = (next_id L + count_buys os)%nat).
Proof.
  unfold count_buys. revert L. induction os as [|o os IH]; intros L.
  - simpl. split; [lia|intros _; lia].
  - destruct o as [o|o]; cbn [apply_orders List.filter is_buy length]; unfold bind.
    + destruct (apply_buy_next_id o p L) as [[Hn Hf]|[Hn Hf]];
        destruct (apply_buy o p L) as [[e|[]] L1]; simpl in Hn, Hf |- *.
      * split; [lia|discriminate].
      * congruence.
      * congruence.
      * destruct (IH L1) as [H1 H2]. split; [lia|]. intros H. rewrite (H2 H). lia.
    + pose proof (apply_sell_next_id o p L) as Hn.
      destruct (apply_sell o p L) as [[e|[]] L1]; simpl in Hn |- *.
      * split; [lia|discriminate].
      * destruct (IH L1) as [H1 H2]. split; [lia|]. intros H. rewrite (H2 H). lia.
Qed.

Lemma update_first_shape (q : holding R -> bool) (a : holding R -> R) hs h' :
  In h' (update_first q (fun h => set_amount h (a h)) hs) ->
  exists h, In h hs /\ same_shape h' h.
Proof.
  induction hs as [|h hs IH]; simpl; [tauto|].
  destruct (q h).
  - intros [<-|Hin]; [exists h; split; [left; reflexivity|repeat split]|].
    exists h'. split; [right; exact Hin|repeat split].
  - intros [<-|Hin]; [exists h; split; [left; reflexivity|repeat split]|].
    destruct (IH Hin) as [h0 [H0 Hs]]. exists h0. split; [right; exact H0|exact Hs].
Qed.

Lemma same_shape_trans (h1 h2 h3 : holding R) :
  same_shape h1 h2 -> same_shape h2 h3 -> same_shape h1 h3.
Proof. unfold same_shape. intros (? & ? & ? & ?) (? & ? & ? & ?). repeat split; congruence. Qed.

Lemma apply_sell_shape (o : sell_order) (p : R) (L : ledger R) h' :
  In h' (holdings (snd (apply_sell o p L))) -> exists h, In h (holdings L) /\ same_shape h' h.
Proof.
  assert (Hrefl : forall h : holding R, same_shape h h) by (intros h; repeat split).
  unfold apply_sell.
  destruct (n_leb (s_amount o) n_zero); [simpl; eauto|].
  destruct (String.eqb (s_holding_id o) USD_HOLDING_ID); [simpl; eauto|].
  destruct (find_holding (s_holding_id o) (holdings L)) as [t|]; [|simpl; eauto].
  destruct (is_usd t); [simpl; eauto|].
  destruct (n_ltb (n_add (amount t) n_eps) (s_amount o)); [simpl; eauto|].
  set (hs1 := update_first (has_id (s_holding_id o)) _ (holdings L)).
  assert (H1 : forall x, In x hs1 -> exists h, In h (holdings L) /\ same_shape x h)
    by (intros x; apply update_first_shape).
  destruct (get_usd_holding hs1); [|simpl; exact (H1 h')].
  set (hs2 := update_first is_usd _ hs1).
  assert (H2 : forall x, In x hs2 -> exists h, In h (holdings L) /\ same_shape x h).
  { intros x Hx. destruct (update_first_shape _ _ _ _ Hx) as [y [Hy Hxy]].
    destruct (H1 y Hy) as [z [Hz Hyz]]. exists z. split; [exact Hz|].
    exact (same_shape_trans _ _ _ Hxy Hyz). }
  simpl. destruct (n_leb _ n_eps); [|exact (H2 h')].
  intros Hin. apply List.filter_In in Hin as [Hin _]. exact (H2 h' Hin).
Qed.

Lemma auto_close_loop_shape (low high : R) : forall rest (L : ledger R),
  next_id (snd (auto_close_loop low high rest L)) = next_id L /\
  (forall h', In h' (holdings (snd (auto_close_loop low high rest L))) ->
     exists h, In h (holdings L) /\ same_shape h' h).
Proof.
  assert (Hrefl : forall h : holding R, same_shape h h) by (intros h; repeat split).
  induction rest as [|g rest IH]; intros L.
  - simpl. split; [reflexivity|eauto].
  - assert (Hsell : forall q, next_id (snd (bind (apply_sell (sell_all g) q)
                                             (fun _ => auto_close_loop low high rest) L)) = next_id L /\
             (forall h', In h' (holdings (snd (bind (apply_sell (sell_all g) q)
                                             (fun _ => auto_close_loop low high rest) L))) ->
                exists h, In h (holdings L) /\ same_shape h' h)).
    { intros q. unfold bind. pose proof (apply_sell_next_id (sell_all g) q L) as Hn.
      pose proof (apply_sell_shape (sell_all g) q L) as Hs.
      destruct (apply_sell (sell_all g) q L) as [[e|[]] L1]; simpl in Hn, Hs |- *.
      - split; [exact Hn|exact Hs].
      - destruct (IH L1) as [Hn' Hs']. split; [congruence|].
        intros h' Hh'. destruct (Hs' h' Hh') as [y [Hy Hxy]]. destruct (Hs y Hy) as [z [Hz Hyz]].
        exists z. split; [exact Hz|exact (same_shape_trans _ _ _ Hxy Hyz)]. }
    cbn [auto_close_loop].
    destruct (find_holding (holding_id g) (holdings L)); [|apply IH].
    destruct (sl_fires low g) as [s|]; [apply Hsell|].
    destruct (tp_fires high g) as [t|]; [apply Hsell|apply IH].
Qed.

(** [_auto_close_on_thresholds] never creates a holding and never issues
    an id: whatever happens (even when a sale raises) every holding left
    is one that was there before, with the same id, asset, stop-loss and
    take-profit, and [_next_id] is unchanged. *)
Theorem auto_close_on_thresholds_no_new_holdings (low high : R) (L : ledger R) :
  next_id (snd (auto_close_on_thresholds low high L)) = next_id L /\
  (forall h', In h' (holdings (snd (auto_close_on_thresholds low high L))) ->
     exists h, In h (holdings L) /\ same_shape h' h).
Proof. unfold auto_close_on_thresholds. apply auto_close_loop_shape. Qed.

Lemma auto_close_loop_noop (low high : R) (L : ledger R) : forall rest,
  Forall (fun h => stop_loss h = None /\ take_profit h = None) rest ->
  auto_close_loop low high rest L = (inr tt, L).
Proof.
  induction 1 as [|g rest [Hs Ht] _ IH]; [reflexivity|].
  cbn [auto_close_loop]. unfold sl_fires, tp_fires. rewrite Hs, Ht.
  destruct (find_holding (holding_id g) (holdings L)); exact IH.
Qed.

(** On a day where no holding has a stop-loss or a take-profit set, the
    intraday enforcement leaves the ledger exactly as it is. *)
Theorem auto_close_on_thresholds_noop (low high : R) (L : ledger R) :
  Forall (fun h => stop_loss h = None /\ take_profit h = None) (holdings L) ->
  auto_close_on_thresholds low high L = (inr tt, L).
Proof.
  intros Hall. unfold auto_close_on_thresholds. apply auto_close_loop_noop.
  apply Forall_forall. intros h Hh. apply list_elem_of_In, List.filter_In in Hh as [Hh _].
  rewrite Forall_forall in Hall. apply Hall, list_elem_of_In, Hh.
Qed.

End Generic.

Local Open Scope Q_scope.

Lemma sum_totals_foldl (sn : list (snapshot Q)) (a : Q) :
  foldl (fun acc x => n_add acc (sn_total_value_usd x)) a sn
  == a + foldl (fun acc x => n_add acc (sn_total_value_usd x)) 0 sn.
Proof.
  revert a. induction sn as [|x sn IH]; intros a; simpl; [ring|].
  rewrite (IH (a + sn_total_value_usd x)), (IH (0 + sn_total_value_usd x)). ring.
Qed.

Lemma sum_totals_snapshot (hs : list (holding Q)) (c : Q) :
  sum_totals (snapshot_holdings_with_price hs c) == usd_total hs + c * btc_units hs.
Proof.
  induction hs as [|h hs IH]; [unfold usd_total, btc_units, sum_totals, snapshot_holdings_with_price; cbn [map foldl fold_right]; change (@n_zero Q NumQ) with 0; ring|].
  unfold sum_totals, snapshot_holdings_with_price in *.
  change (map ?g (h :: hs)) with (g h :: map g hs).
  change (foldl ?f ?a (?x :: ?l)) with (foldl f (f a x) l).
  rewrite sum_totals_foldl, IH.
  unfold usd_total, btc_units. change (fold_right ?f ?a (h :: hs)) with (f h (fold_right f a hs)).
  cbv beta. destruct (is_usd h); cbn [sn_total_value_usd n_add n_mul n_one n_zero NumQ]; ring.
Qed.

(** The valuation of [test_strategy]'s last step: when it produces a
    result, [total_portfolio_usd] is the USD amount plus the BTC units
    valued at the last day's close, and [revenue_percent] is positive
    exactly when that total exceeds the initial [10000]. *)
Theorem final_result_valuation (df : list (bar Q)) (dates : list Z) (L : ledger Q)
    (snaps : list (snapshot Q)) (total rev : Q) :
  final_result df dates L = OResult snaps total rev ->
  exists row, (last dates ≫= find_row df) = Some row /\
    total == usd_total (holdings L) + close row * btc_units (holdings L) /\
    (0 < rev <-> 10000 < total).
Proof.
  unfold final_result. destruct (last dates ≫= find_row df) as [row|]; [|discriminate].
  intros [= <- <- <-]. exists row. split; [reflexivity|]. split.
  - apply sum_totals_snapshot.
  - unfold INITIAL_PORTFOLIO_USD. cbn [n_mul n_sub n_div n_one n_of_Z NumQ].
    set (t := sum_totals _). unfold Qdiv.
    change (/ inject_Z 10000) with (1 # 10000). change (inject_Z 100) with (100 # 1).
    change (inject_Z 10000) with (10000 # 1).
    split; intros H; lra.
Qed.
Lemma auto_close_on_thresholds_noop_witness :
  let o : @buy_order Q := {| b_amount := 1; b_stop_loss := None; b_take_profit := None |} in
  let L := snd (apply_buy o 100 reset_portfolio) in
  Forall (fun h => stop_loss h = None /\ take_profit h = None) (holdings L) /\
  auto_close_on_thresholds 50 150 L = (inr tt, L).
Proof.
  intros o L.
  assert (H : Forall (fun h => stop_loss h = None /\ take_profit h = None) (holdings L))
    by (vm_compute; repeat constructor).
  split; [exact H|]. exact (auto_close_on_thresholds_noop 50 150 L H).
Defined.

Lemma final_result_valuation_witness :
  let mk d o h l c : bar Q :=
    {| date := d; open_ := o; high := h; low := l; close := c; volume := 1 |} in
  let df := load_prices [mk 3%Z 102 106 100 105; mk 1%Z 100 101 99 100;
                         mk 4%Z 105 110 104 108; mk 2%Z 100 103 98 102] in
  let o : @buy_order Q := {| b_amount := 10; b_stop_loss := None; b_take_profit := None |} in
  let L := snd (apply_buy o 100 reset_portfolio) in
  let r := final_result df [3; 4]%Z L in
  let snaps := match r with OResult s _ _ => s | _ => [] end in
  let total := match r with OResult _ t _ => t | _ => 0 end in
  let rev := match r with OResult _ _ v => v | _ => 0 end in
  final_result df [3; 4]%Z L = OResult snaps total rev /\
  exists row, (last [3; 4]%Z ≫= find_row df) = Some row /\
    total == usd_total (holdings L) + close row * btc_units (holdings L) /\
    (0 < rev <-> 10000 < total).
Proof.
  intros mk df o L r snaps total rev.
  assert (H : final_result df [3; 4]%Z L = OResult snaps total rev) by (vm_compute; reflexivity).
  split; [exact H|]. exact (final_result_valuation df [3; 4]%Z L snaps total rev H).
Defined.

End LedgerMoreFacts.

Module CodeUtilsFacts.
Import CodeUtils.
Open Scope string_scope.

Lemma prefix_app (p x y : string) : String.prefix p x = true -> String.prefix p (x ++ y) = true.
Proof.
  revert x. induction p as [|c p IH]; intros x; [destruct x, y; reflexivity|].
  destruct x as [|d x]; simpl; [discriminate|].
  destruct (ascii_dec c d); [apply IH|discriminate].
Qed.

Lemma contains_app_l (p x y : string) : contains p x = true -> contains p (x ++ y) = true.
Proof.
  induction x as [|c x IH]; simpl.
  - intros H. rewrite orb_false_r in H. destruct p; [|discriminate]. destruct y; reflexivity.
  - intros H. apply orb_true_iff in H as [H|H].
    + pose proof (prefix_app p (String c x) y H) as H'. simpl in H'. rewrite H'. reflexivity.
    + rewrite (IH H). apply orb_true_r.
Qed.

Lemma contains_app_r (p x y : string) : contains p y = true -> contains p (x ++ y) = true.
Proof.
  induction x as [|c x IH]; simpl; [auto|]. intros H. rewrite (IH H). apply orb_true_r.
Qed.

Lemma substring_all (s : string) : substring 0 (String.length s) s = s.
Proof. induction s as [|c s IH]; simpl; [reflexivity|]. rewrite IH. reflexivity. Qed.

Lemma prefix_split (p s : string) :
  String.prefix p s = true -> s = p ++ substring (String.length p) (String.length s - String.length p) s.
Proof.
  revert s. induction p as [|c p IH]; intros s.
  - intros _. simpl. rewrite Nat.sub_0_r, substring_all. reflexivity.
  - destruct s as [|d s]; simpl; [discriminate|].
    destruct (ascii_dec c d) as [<-|]; [|discriminate].
    intros H. rewrite (IH s H) at 1. reflexivity.
Qed.

Lemma split_first_spec (p s a b : string) :
  split_first p s = Some (a, b) -> s = a ++ p ++ b.
Proof.
  revert a b. induction s as [|c s IH]; intros a b; cbn [split_first contains].
  - destruct p; simpl; [intros [= <- <-]; reflexivity|intros ?; discriminate].
  - destruct (String.prefix p (String c s)) eqn:Hp.
    + intros [= <- <-]. exact (prefix_split p (String c s) Hp).
    + destruct (split_first p s) as [[a' b']|]; [|intros ?; discriminate].
      intros [= <- <-]. rewrite (IH a' b' eq_refl) at 1. reflexivity.
Qed.

Lemma split_first_none (p s : string) : split_first p s = None -> contains p s = false.
Proof.
  induction s as [|c s IH]; cbn [split_first contains].
  - destruct (String.prefix p EmptyString); [discriminate|reflexivity].
  - destruct (String.prefix p (String c s)); [discriminate|].
    destruct (split_first p s) as [[]|]; [discriminate|]. simpl. auto.
Qed.

Lemma contains_split_first (p s : string) :
  contains p s = true -> exists a b, split_first p s = Some (a, b).
Proof.
  intros H. destruct (split_first p s) as [[a b]|] eqn:E; [eauto|].
  rewrite (split_first_none p s E) in H. discriminate.
Qed.

Lemma split_first_before (p s a b : string) :
  p <> EmptyString -> split_first p s = Some (a, b) -> contains p a = false.
Proof.
  intros Hp. revert a b. induction s as [|c s IH]; intros a b; cbn [split_first contains].
  - destruct (String.prefix p EmptyString); [|discriminate].
    intros [= <- <-]. simpl. destruct p; [congruence|reflexivity].
  - destruct (String.prefix p (String c s)) eqn:Hpre.
    + intros [= <- <-]. simpl. destruct p; [congruence|reflexivity].
    + destruct (split_first p s) as [[a' b']|] eqn:E; [|discriminate].
      intros [= <- <-]. cbn [contains]. rewrite (IH a' b' eq_refl), orb_false_r.
      destruct (String.prefix p (String c a')) eqn:Hq; [|reflexivity].
      rewrite (split_first_spec p s a' b' E) in Hpre.
      change (String c (a' ++ p ++ b')) with (String c a' ++ (p ++ b')) in Hpre.
      rewrite (prefix_app p (String c a') (p ++ b') Hq) in Hpre. discriminate.
Qed.

Lemma split0_no_sep (p s : string) : p <> EmptyString -> contains p (split0 p s) = false.
Proof.
  intros Hp. unfold split0. destruct (split_first p s) as [[a b]|] eqn:E.
  - exact (split_first_before p s a b Hp E).
  - exact (split_first_none p s E).
Qed.

Lemma contains_lstrip (p s : string) : contains p (lstrip s) = true -> contains p s = true.
Proof.
  induction s as [|c s IH]; simpl; [auto|].
  destruct (py_isspace c); [|auto]. intros H. rewrite (IH H). apply orb_true_r.
Qed.

Lemma rstrip_prefix (s : string) : exists t, s = rstrip s ++ t.
Proof.
  induction s as [|c s [t Ht]]; simpl; [exists EmptyString; reflexivity|].
  destruct (rstrip s) as [|d r] eqn:E.
  - destruct (py_isspace c); [exists (String c s); reflexivity|].
    exists s. reflexivity.
  - exists t. simpl. rewrite Ht at 1. reflexivity.
Qed.

Lemma contains_strip (p s : string) : contains p (strip s) = true -> contains p s = true.
Proof.
  unfold strip. intros H. apply contains_lstrip.
  destruct (rstrip_prefix (lstrip s)) as [t Ht]. rewrite Ht.
  apply contains_app_l, H.
Qed.

Lemma prefix_app_l (p q s : string) : String.prefix (p ++ q) s = true -> String.prefix p s = true.
Proof.
  revert s. induction p as [|c p IH]; intros s; [destruct s; reflexivity|].
  destruct s as [|d s]; [discriminate|]. change (String c p ++ q) with (String c (p ++ q)); cbn [String.prefix].
  destruct (ascii_dec c d); [apply IH|discriminate].
Qed.

Lemma prefix_fence (s : string) : String.prefix fence_python s = true -> String.prefix fence s = true.
Proof. apply (prefix_app_l fence "python"). Qed.

Lemma contains_fence (s : string) : contains fence_python s = true -> contains fence s = true.
Proof.
  induction s as [|c s IH]; cbn [contains].
  - discriminate.
  - intros H. apply orb_true_iff in H as [H|H].
    + rewrite (prefix_fence _ H). reflexivity.
    + rewrite (IH H). apply orb_true_r.
Qed.

(** Extra: [strip_llm_formatting] never raises; text without a
    [```python] fence is returned unchanged, and when the fence is present
    the result is the stripped text between it and the next [```] fence,
    so it holds no [```] at all. *)
Theorem strip_llm_formatting_result (code : string) :
  (contains fence_python code = false -> strip_llm_formatting code = Some code) /\
  (contains fence_python code = true ->
     exists before after,
       split_first fence_python code = Some (before, after) /\
       strip_llm_formatting code = Some (strip (split0 fence (split0 fence_python after))) /\
       contains fence (strip (split0 fence (split0 fence_python after))) = false).
Proof.
  unfold strip_llm_formatting. split.
  - intros ->. reflexivity.
  - intros H. rewrite H. destruct (contains_split_first _ _ H) as (a & b & E).
    exists a, b. unfold split1. rewrite E. split; [reflexivity|split; [reflexivity|]].
    destruct (contains fence (strip (split0 fence (split0 fence_python b)))) eqn:Hc; [|reflexivity].
    apply contains_strip in Hc. rewrite split0_no_sep in Hc; [discriminate|discriminate].
Qed.

(** Extra: applying [strip_llm_formatting] twice gives the same text as
    applying it once. *)
Theorem strip_llm_formatting_idempotent (code : string) :
  exists r, strip_llm_formatting code = Some r /\ strip_llm_formatting r = Some r.
Proof.
  unfold strip_llm_formatting.
  destruct (contains fence_python code) eqn:H.
  - destruct (contains_split_first _ _ H) as (a & b & E). unfold split1. rewrite E.
    eexists. split; [reflexivity|].
    destruct (contains fence_python (strip (split0 fence (split0 fence_python b)))) eqn:Hc; [|reflexivity].
    apply contains_fence, contains_strip in Hc. rewrite split0_no_sep in Hc; [discriminate|discriminate].
  - exists code. rewrite H. split; reflexivity.
Qed.

End CodeUtilsFacts.
